(** * entity_client: cache keys, transport client, query bindings and the
      current-entity controller

    A shallow embedding of the TypeScript sources
    - [src/hooks/useEntities.ts]      (entityKeys, useEntity, ...)
    - [src/hooks/useEntityMembers.ts] (memberKeys, useEntityMembers, ...)
    - [src/hooks/useInvitations.ts]   (invitationKeys, useAcceptInvitation, ...)
    - [src/network/EntityClient.ts]   (request and the fourteen accessors)
    - [src/hooks/useCurrentEntity.tsx] (CurrentEntityProvider, useCurrentEntity)

    JavaScript values are modelled as follows: [string | null] is
    [option string]; the truthiness test [if (s)] on such a value is
    [truthy], which is false on [null] and on the empty string; a promise is
    a value of [Promise], resolved or rejected; an object used as a map
    (headers, localStorage) is a [gmap string string]. *)

From stdpp Require Import base numbers strings list gmap.

Local Open Scope string_scope.
Local Open Scope list_scope.

(** ** JavaScript preliminaries *)

(** [if (s)] for [s : string | null | undefined]. *)
Definition truthy (s : option string) : bool :=
  match s with
  | Some s => bool_decide (s ≠ "")
  | None => false
  end.

(** [a || b] on possibly-null strings. *)
Definition js_or (a b : option string) : option string :=
  if truthy a then a else b.

(** JSON values, as produced by [response.json()] and consumed by
    [JSON.stringify]. *)
#[warnings="-register-all"]
Inductive JSON :=
| JNull
| JBool (b : bool)
| JNum (n : Z)
| JStr (s : string)
| JArr (items : list JSON)
| JObj (fields : list (string * JSON)).

(** An [Error] object; only its [message] is observed by the code. *)
Record Error := mkError { message : string }.

(** What a [throw] or a rejected promise carries. JavaScript lets any value
    be thrown: an [Error] (or another object with a string [message]),
    [null] or [undefined], or any other value, whose [message] property is
    [undefined]; an object whose [message] is not a string is left out. *)
Inductive ThrownValue :=
| AnError (e : Error)
| Nullish
| OtherValue.

Coercion AnError : Error >-> ThrownValue.

(** The settled state of a promise. *)
Inductive Promise (A : Type) :=
| Resolved (a : A)
| Rejected (e : ThrownValue).
Arguments Resolved {A} a.
Arguments Rejected {A} e.

(** A query key of the cache engine: an array of strings. *)
Definition QueryKey := list string.

(** ** Cache-key builders *)

(** [entityKeys] of [useEntities.ts]. *)
Module entityKeys.
Definition all : QueryKey := ["entities"].
Definition lists : QueryKey := all ++ ["list"].
Definition list : QueryKey := lists ++ [].
Definition details : QueryKey := all ++ ["detail"].
Definition detail (slug : string) : QueryKey := details ++ [slug].
End entityKeys.

(** [memberKeys] of [useEntityMembers.ts]. *)
Module memberKeys.
Definition all (entitySlug : string) : QueryKey :=
    entityKeys.detail entitySlug ++ ["members"].
Definition list (entitySlug : string) : QueryKey :=
    all entitySlug ++ ["list"].
End memberKeys.

(** [invitationKeys] of [useInvitations.ts]. *)
Module invitationKeys.
Definition all : QueryKey := ["invitations"].
Definition myList : QueryKey := all ++ ["my"].
Definition entityList (entitySlug : string) : QueryKey :=
    entityKeys.detail entitySlug ++ ["invitations"].
End invitationKeys.

(** The key used by a read binding whose slug is missing. *)
Definition disabledKey : QueryKey := ["disabled"].

(** Every way of calling a key builder: the builder together with its
    argument. *)
Inductive KeyCall :=
| EK_all
| EK_lists
| EK_list
| EK_details
| EK_detail (slug : string)
| MK_all (entitySlug : string)
| MK_list (entitySlug : string)
| IK_all
| IK_myList
| IK_entityList (entitySlug : string).

Definition buildKey (c : KeyCall) : QueryKey :=
  match c with
  | EK_all => entityKeys.all
  | EK_lists => entityKeys.lists
  | EK_list => entityKeys.list
  | EK_details => entityKeys.details
  | EK_detail s => entityKeys.detail s
  | MK_all s => memberKeys.all s
  | MK_list s => memberKeys.list s
  | IK_all => invitationKeys.all
  | IK_myList => invitationKeys.myList
  | IK_entityList s => invitationKeys.entityList s
  end.

(** The two calls [entityKeys.lists()] and [entityKeys.list()], which the
    source defines as copies of one another. *)
Definition listAlias (c1 c2 : KeyCall) : Prop :=
  (c1 = EK_lists ∧ c2 = EK_list) ∨ (c1 = EK_list ∧ c2 = EK_lists).

(** [invalidateQueries({queryKey: k})] marks stale every cached query whose
    key starts with [k] (the cache engine's partial matching). *)
Definition invalidates (k target : QueryKey) : Prop := k `prefix_of` target.

#[global] Instance invalidates_dec k target : Decision (invalidates k target).
Proof. unfold invalidates. apply _. Defined.

(** ** The transport client ([EntityClient.ts]) *)

(** [ApiResponse<T>]; the type parameter is erased at run time, [data] is
    whatever JSON value the body carries. An absent optional field is
    [None]. *)
Record ApiResponse := mkApiResponse {
  success : bool;
  data : option JSON;
  error : option string
}.

(** The fields of [RequestInit] the client uses. [headers] is an object
    used as a map; an absent [headers] is the empty map. *)
Record RequestInit := mkRequestInit {
  method : option string;
  body : option string;
  headers : gmap string string
}.

(** [options: RequestInit = {}]. *)
Definition noOptions : RequestInit :=
  {| method := None; body := None; headers := ∅ |}.

(** The verb the HTTP layer sends: [fetch] defaults to GET when [method] is
    absent. *)
Definition effectiveMethod (init : RequestInit) : string :=
  default "GET" (method init).

(** A [Response]; [json()] either yields the parsed body, which the source
    casts to [ApiResponse<T>] without validation, or rejects when the body
    is not JSON. *)
Record Response := mkResponse { json : Promise ApiResponse }.

(** One HTTP request handed to [fetch]. *)
Record FetchCall := mkFetchCall { call_url : string; call_init : RequestInit }.

(** The calls issued so far, oldest first. *)
Definition Trace := list FetchCall.

(** The globals of the JavaScript runtime the client relies on: [fetch],
    whose answer may depend on the calls made before, and
    [JSON.stringify]; and the [TypeError] the engine throws when a property
    of [null] or [undefined] is read, whose message differs between
    engines. *)
Record Runtime := mkRuntime {
  rt_fetch : Trace → string → RequestInit → Promise Response;
  rt_stringify : JSON → string;
  rt_nullishAccess : Error
}.

(** An [async] computation: it reads the runtime, extends the trace of HTTP
    calls and settles to a value or to a thrown error. *)
Definition Async (A : Type) : Type := Runtime → Trace → Promise A * Trace.

Definition async_ret {A} (a : A) : Async A := λ _ tr, (Resolved a, tr).

Definition async_bind {A B} (m : Async A) (k : A → Async B) : Async B :=
  λ rt tr,
    match m rt tr with
    | (Resolved a, tr') => k a rt tr'
    | (Rejected e, tr') => (Rejected e, tr')
    end.

#[global] Instance Async_ret : MRet Async := @async_ret.
#[global] Instance Async_bind : MBind Async := λ A B k m, async_bind m k.

(** [await p] for an already settled promise. *)
Definition await {A} (p : Promise A) : Async A := λ _ tr, (p, tr).

(** [throw new Error(msg)]. *)
Definition throw {A} (msg : string) : Async A :=
  λ _ tr, (Rejected (mkError msg), tr).

(** [try { m } catch (error) { handler(error) }]. *)
Definition try_catch {A} (m : Async A) (handler : ThrownValue → Async A)
  : Async A :=
  λ rt tr,
    match m rt tr with
    | (Resolved a, tr') => (Resolved a, tr')
    | (Rejected e, tr') => handler e rt tr'
    end.

(** [await fetch(url, init)]: the call is recorded, then the runtime
    answers. *)
Definition fetch (url : string) (init : RequestInit) : Async Response :=
  λ rt tr, (rt_fetch rt tr url init, tr ++ [mkFetchCall url init]).

(** [JSON.stringify(v)]. *)
Definition JSON_stringify (v : JSON) : Async string :=
  λ rt tr, (Resolved (rt_stringify rt v), tr).

(** [error.message] for a caught value [error: any]: the message of an
    error, [undefined] for a value that has none, and a [TypeError] thrown
    by the engine for [null] and [undefined]. *)
Definition get_message (error : ThrownValue) : Async (option string) :=
  λ rt tr,
    match error with
    | AnError e => (Resolved (Some (message e)), tr)
    | OtherValue => (Resolved None, tr)
    | Nullish => (Rejected (rt_nullishAccess rt), tr)
    end.

(** [EntityClientConfig]. *)
Record EntityClientConfig := mkConfig {
  baseUrl : string;
  getAuthToken : unit → Promise (option string)
}.

Definition notAuthenticated : ApiResponse :=
  {| success := false; data := None; error := Some "Not authenticated" |}.

(** [EntityClient.request]. The token is awaited before the [try] block. *)
Definition request (config : EntityClientConfig)
    (path : string) (options : RequestInit) : Async ApiResponse :=
  token ← await (getAuthToken config ());
  if negb (truthy token) then mret notAuthenticated
  else
    let url := baseUrl config +:+ path in
    let headers' :=
      headers options ∪
      {[ "Content-Type" := "application/json";
         "Authorization" := "Bearer " +:+ default "" token ]} in
    try_catch
      (response ← fetch url
         {| method := method options; body := body options;
            headers := headers' |};
       data ← await (json response);
       mret data)
      (λ error,
         msg ← get_message error;
         mret {| success := false; data := None; error := msg |}).

(** *** The resource accessors *)

Definition listEntities (c : EntityClientConfig) : Async ApiResponse :=
  request c "/entities" noOptions.

Definition createEntity (c : EntityClientConfig) (req : JSON)
  : Async ApiResponse :=
  b ← JSON_stringify req;
  request c "/entities"
    {| method := Some "POST"; body := Some b; headers := ∅ |}.

Definition getEntity (c : EntityClientConfig) (entitySlug : string)
  : Async ApiResponse :=
  request c ("/entities/" +:+ entitySlug) noOptions.

Definition updateEntity (c : EntityClientConfig) (entitySlug : string)
    (req : JSON) : Async ApiResponse :=
  b ← JSON_stringify req;
  request c ("/entities/" +:+ entitySlug)
    {| method := Some "PUT"; body := Some b; headers := ∅ |}.

Definition deleteEntity (c : EntityClientConfig) (entitySlug : string)
  : Async ApiResponse :=
  request c ("/entities/" +:+ entitySlug)
    {| method := Some "DELETE"; body := None; headers := ∅ |}.

Definition listMembers (c : EntityClientConfig) (entitySlug : string)
  : Async ApiResponse :=
  request c ("/entities/" +:+ entitySlug +:+ "/members") noOptions.

(** [role] is an [EntityRole], a string enum; the body is [{ role }]. *)
Definition updateMemberRole (c : EntityClientConfig)
    (entitySlug memberId role : string) : Async ApiResponse :=
  b ← JSON_stringify (JObj [("role", JStr role)]);
  request c ("/entities/" +:+ entitySlug +:+ "/members/" +:+ memberId)
    {| method := Some "PUT"; body := Some b; headers := ∅ |}.

Definition removeMember (c : EntityClientConfig)
    (entitySlug memberId : string) : Async ApiResponse :=
  request c ("/entities/" +:+ entitySlug +:+ "/members/" +:+ memberId)
    {| method := Some "DELETE"; body := None; headers := ∅ |}.

Definition listEntityInvitations (c : EntityClientConfig)
    (entitySlug : string) : Async ApiResponse :=
  request c ("/entities/" +:+ entitySlug +:+ "/invitations") noOptions.

Definition createInvitation (c : EntityClientConfig) (entitySlug : string)
    (req : JSON) : Async ApiResponse :=
  b ← JSON_stringify req;
  request c ("/entities/" +:+ entitySlug +:+ "/invitations")
    {| method := Some "POST"; body := Some b; headers := ∅ |}.

Definition cancelInvitation (c : EntityClientConfig)
    (entitySlug invitationId : string) : Async ApiResponse :=
  request c
    ("/entities/" +:+ entitySlug +:+ "/invitations/" +:+ invitationId)
    {| method := Some "DELETE"; body := None; headers := ∅ |}.

Definition listMyInvitations (c : EntityClientConfig) : Async ApiResponse :=
  request c "/invitations" noOptions.

Definition acceptInvitation (c : EntityClientConfig) (token : string)
  : Async ApiResponse :=
  request c ("/invitations/" +:+ token +:+ "/accept")
    {| method := Some "POST"; body := None; headers := ∅ |}.

Definition declineInvitation (c : EntityClientConfig) (token : string)
  : Async ApiResponse :=
  request c ("/invitations/" +:+ token +:+ "/decline")
    {| method := Some "POST"; body := None; headers := ∅ |}.

(** ** Query and mutation bindings *)

(** Truthiness of a possibly [undefined] JSON value ([!response.data]). *)
Definition json_truthy (v : option JSON) : bool :=
  match v with
  | None | Some JNull => false
  | Some (JBool b) => b
  | Some (JNum n) => bool_decide (n ≠ 0%Z)
  | Some (JStr s) => bool_decide (s ≠ "")
  | Some (JArr _) | Some (JObj _) => true
  end.

(** [response.error || fallback]. *)
Definition error_or (e : option string) (fallback : string) : string :=
  if truthy e then default fallback e else fallback.

(** The options object handed to [useQuery]. A query function returns a
    JavaScript value; [None] stands for [undefined]. *)
Record QueryOptions := mkQueryOptions {
  queryKey : QueryKey;
  queryFn : Async (option JSON);
  enabled : bool
}.

(** [useEntities]; [enabled] is not given and defaults to true. *)
Definition useEntities (client : EntityClientConfig) : QueryOptions :=
  {| queryKey := entityKeys.list;
     queryFn :=
       response ← listEntities client;
       if negb (success response)
       then throw (error_or (error response) "Failed to fetch entities")
       else mret (data response);
     enabled := true |}.

(** [useEntity]. *)
Definition useEntity (client : EntityClientConfig)
    (entitySlug : option string) : QueryOptions :=
  {| queryKey :=
       if truthy entitySlug then entityKeys.detail (default "" entitySlug)
       else disabledKey;
     queryFn :=
       if negb (truthy entitySlug) then mret (Some JNull)
       else
         response ← getEntity client (default "" entitySlug);
         if negb (success response)
         then throw (error_or (error response) "Failed to fetch entity")
         else mret (data response);
     enabled := truthy entitySlug |}.

(** [useEntityMembers]. *)
Definition useEntityMembers (client : EntityClientConfig)
    (entitySlug : option string) : QueryOptions :=
  {| queryKey :=
       if truthy entitySlug then memberKeys.list (default "" entitySlug)
       else disabledKey;
     queryFn :=
       if negb (truthy entitySlug) then mret (Some (JArr []))
       else
         response ← listMembers client (default "" entitySlug);
         if negb (success response) || negb (json_truthy (data response))
         then throw (error_or (error response) "Failed to fetch members")
         else mret (data response);
     enabled := truthy entitySlug |}.

(** [useMyInvitations]. *)
Definition useMyInvitations (client : EntityClientConfig) : QueryOptions :=
  {| queryKey := invitationKeys.myList;
     queryFn :=
       response ← listMyInvitations client;
       if negb (success response)
       then throw (error_or (error response) "Failed to fetch invitations")
       else mret (data response);
     enabled := true |}.

(** [useEntityInvitations]. *)
Definition useEntityInvitations (client : EntityClientConfig)
    (entitySlug : option string) : QueryOptions :=
  {| queryKey :=
       if truthy entitySlug
       then invitationKeys.entityList (default "" entitySlug)
       else disabledKey;
     queryFn :=
       if negb (truthy entitySlug) then mret (Some (JArr []))
       else
         response ← listEntityInvitations client (default "" entitySlug);
         if negb (success response)
         then throw (error_or (error response) "Failed to fetch invitations")
         else mret (data response);
     enabled := truthy entitySlug |}.

(** The part of the [QueryClient] the bindings touch: the invalidation
    requests received so far, oldest first. *)
Definition QueryClient := list QueryKey.

(** [queryClient.invalidateQueries({ queryKey })]. *)
Definition invalidateQueries (k : QueryKey) (qc : QueryClient) : QueryClient :=
  qc ++ [k].

(** The options object handed to [useMutation], for variables of type [V]. *)
Record MutationOptions (V : Type) := mkMutationOptions {
  mutationFn : V → Async (option JSON);
  onSuccess : option JSON → V → QueryClient → QueryClient
}.
Arguments mutationFn {V} _ _.
Arguments onSuccess {V} _ _ _ _.

(** [useAcceptInvitation]; the mutation function returns nothing. *)
Definition useAcceptInvitation (client : EntityClientConfig)
  : MutationOptions string :=
  {| mutationFn := λ token,
       response ← acceptInvitation client token;
       if negb (success response)
       then throw (error_or (error response) "Failed to accept invitation")
       else mret None;
     onSuccess := λ _ _ qc,
       invalidateQueries entityKeys.lists
         (invalidateQueries invitationKeys.myList qc) |}.

(** [useDeclineInvitation]. *)
Definition useDeclineInvitation (client : EntityClientConfig)
  : MutationOptions string :=
  {| mutationFn := λ token,
       response ← declineInvitation client token;
       if negb (success response)
       then throw (error_or (error response) "Failed to decline invitation")
       else mret None;
     onSuccess := λ _ _ qc, invalidateQueries invitationKeys.myList qc |}.

(** How the cache engine runs a mutation: [onSuccess] is called with the
    result and the variables once the mutation function has resolved, and
    is not called when it has thrown. *)
Definition mutate {V} (opts : MutationOptions V) (variables : V)
    (rt : Runtime) (tr : Trace) (qc : QueryClient)
  : Promise (option JSON) * Trace * QueryClient :=
  match mutationFn opts variables rt tr with
  | (Resolved r, tr') => (Resolved r, tr', onSuccess opts r variables qc)
  | (Rejected e, tr') => (Rejected e, tr', qc)
  end.

(** ** The current-entity controller ([useCurrentEntity.tsx]) *)

(** [EntityType], of the external schema: a personal workspace or an
    organization. *)
Inductive EntityType := PERSONAL | ORGANIZATION.

#[global] Instance EntityType_eq_dec : EqDecision EntityType.
Proof. solve_decision. Defined.

(** [EntityWithRole], of the external schema: the fields the controller
    reads, and the caller's role. *)
Record EntityWithRole := mkEntity {
  id : string;
  entitySlug : string;
  displayName : string;
  entityType : EntityType;
  userRole : string
}.

(** [AuthUser]. *)
Record AuthUser := mkAuthUser { uid : string; email : option string }.

Definition STORAGE_KEY : string := "currentEntitySlug".

(** [findPersonalEntity]. *)
Definition findPersonalEntity (entities : list EntityWithRole)
  : option EntityWithRole :=
  find (λ e, bool_decide (entityType e = PERSONAL)) entities.

(** [entities.find(e => e.entitySlug === selectedSlug)]. *)
Definition findBySlug (selectedSlug : option string)
    (entities : list EntityWithRole) : option EntityWithRole :=
  find (λ e, bool_decide (Some (entitySlug e) = selectedSlug)) entities.

(** The state the provider keeps between renders: the two [useState]
    cells, the [previousUserUid] ref, and what its effects act upon:
    [localStorage] ([None] when there is no [window]), the number of
    [refetch()] calls and the arguments [onEntityChange] was called with. *)
Record ProviderState := mkProviderState {
  selectedSlug : option string;
  isInitialized : bool;
  previousUserUid : option string;
  localStorage : option (gmap string string);
  refetches : nat;
  notified : list (option EntityWithRole)
}.

(** The props of the provider and the result of [useEntities(client)] at
    one render. *)
Record ProviderInput := mkProviderInput {
  user : option AuthUser;
  defaultEntitySlug : option string;
  hasOnEntityChange : bool;
  entitiesData : option (list EntityWithRole);
  isEntitiesLoading : bool
}.

(** The initializer of the [selectedSlug] state cell. *)
Definition initialSelectedSlug (storage : option (gmap string string))
    (defaultSlug : option string) : option string :=
  match storage with
  | Some items => js_or (js_or (items !! STORAGE_KEY) defaultSlug) None
  | None => js_or defaultSlug None
  end.

Definition initialState (storage : option (gmap string string))
    (defaultSlug : option string) : ProviderState :=
  {| selectedSlug := initialSelectedSlug storage defaultSlug;
     isInitialized := false;
     previousUserUid := None;
     localStorage := storage;
     refetches := 0;
     notified := [] |}.

(** [data: entities = []]. *)
Definition entitiesOf (i : ProviderInput) : list EntityWithRole :=
  default [] (entitiesData i).

(** [const isAuthenticated = !!user]. *)
Definition isAuthenticated (i : ProviderInput) : bool :=
  bool_decide (is_Some (user i)).

(** The [currentEntity] computed at each render. *)
Definition currentEntity (authenticated : bool)
    (entities : list EntityWithRole) (selected : option string)
  : option EntityWithRole :=
  if negb authenticated || bool_decide (length entities = 0) then None
  else
    match (if truthy selected then findBySlug selected entities else None) with
    | Some found => Some found
    | None =>
        match findPersonalEntity entities with
        | Some personal => Some personal
        | None => head entities
        end
    end.

(** The values an effect closes over: those of the render that scheduled
    it. *)
Record Snapshot := mkSnapshot {
  snap_input : ProviderInput;
  snap_selectedSlug : option string;
  snap_currentEntity : option EntityWithRole
}.

Definition render (i : ProviderInput) (st : ProviderState) : Snapshot :=
  {| snap_input := i;
     snap_selectedSlug := selectedSlug st;
     snap_currentEntity :=
       currentEntity (isAuthenticated i) (entitiesOf i) (selectedSlug st) |}.

Definition setSelectedSlug (v : option string) (st : ProviderState)
  : ProviderState :=
  {| selectedSlug := v; isInitialized := isInitialized st;
     previousUserUid := previousUserUid st; localStorage := localStorage st;
     refetches := refetches st; notified := notified st |}.

Definition setIsInitialized (v : bool) (st : ProviderState) : ProviderState :=
  {| selectedSlug := selectedSlug st; isInitialized := v;
     previousUserUid := previousUserUid st; localStorage := localStorage st;
     refetches := refetches st; notified := notified st |}.

Definition setPreviousUserUid (v : option string) (st : ProviderState)
  : ProviderState :=
  {| selectedSlug := selectedSlug st; isInitialized := isInitialized st;
     previousUserUid := v; localStorage := localStorage st;
     refetches := refetches st; notified := notified st |}.

(** [if (typeof window !== 'undefined') localStorage.f(...)]. *)
Definition onStorage (f : gmap string string → gmap string string)
    (st : ProviderState) : ProviderState :=
  {| selectedSlug := selectedSlug st; isInitialized := isInitialized st;
     previousUserUid := previousUserUid st;
     localStorage := f <$> localStorage st;
     refetches := refetches st; notified := notified st |}.

Definition refetch (st : ProviderState) : ProviderState :=
  {| selectedSlug := selectedSlug st; isInitialized := isInitialized st;
     previousUserUid := previousUserUid st; localStorage := localStorage st;
     refetches := S (refetches st); notified := notified st |}.

Definition notify (e : option EntityWithRole) (st : ProviderState)
  : ProviderState :=
  {| selectedSlug := selectedSlug st; isInitialized := isInitialized st;
     previousUserUid := previousUserUid st; localStorage := localStorage st;
     refetches := refetches st; notified := notified st ++ [e] |}.

(** [localStorage.getItem(STORAGE_KEY)], null without a [window]. *)
Definition persistedSlug (st : ProviderState) : option string :=
  localStorage st ≫= λ items, items !! STORAGE_KEY.

(** The [clear] callback. *)
Definition clear (st : ProviderState) : ProviderState :=
  onStorage (delete STORAGE_KEY)
    (setIsInitialized false (setSelectedSlug None st)).

(** The first effect: login and logout. *)
Definition userChangeEffect (s : Snapshot) (st : ProviderState)
  : ProviderState :=
  let currentUid := uid <$> user (snap_input s) in
  let st1 :=
    if truthy currentUid && bool_decide (currentUid ≠ previousUserUid st)
    then refetch st else st in
  let st2 :=
    if negb (truthy currentUid) && truthy (previousUserUid st1)
    then onStorage (delete STORAGE_KEY)
           (setIsInitialized false (setSelectedSlug None st1))
    else st1 in
  setPreviousUserUid currentUid st2.

(** The second effect: persist the selection, mark as initialized. *)
Definition persistEffect (s : Snapshot) (st : ProviderState) : ProviderState :=
  let i := snap_input s in
  if negb (isAuthenticated i) then st
  else
    let st1 :=
      match snap_currentEntity s with
      | Some e => onStorage (insert STORAGE_KEY (entitySlug e)) st
      | None => st
      end in
    if negb (isEntitiesLoading i) && isAuthenticated i
    then setIsInitialized true st1 else st1.

(** The third effect: auto-select the personal entity. *)
Definition autoSelectEffect (s : Snapshot) (st : ProviderState)
  : ProviderState :=
  let i := snap_input s in
  let entities := entitiesOf i in
  if negb (isAuthenticated i) || isEntitiesLoading i
     || bool_decide (length entities = 0)
  then st
  else if negb (truthy (snap_selectedSlug s))
          || negb (bool_decide
                     (is_Some (findBySlug (snap_selectedSlug s) entities)))
  then
    match findPersonalEntity entities with
    | Some personal => setSelectedSlug (Some (entitySlug personal)) st
    | None =>
        match head entities with
        | Some first => setSelectedSlug (Some (entitySlug first)) st
        | None => st
        end
    end
  else st.

(** The fourth effect: [onEntityChange?.(currentEntity)]. *)
Definition notifyEffect (s : Snapshot) (st : ProviderState) : ProviderState :=
  if hasOnEntityChange (snap_input s) then notify (snap_currentEntity s) st
  else st.

(** Which effects run after a render: those with a changed dependency. *)
Record EffectsDue := mkEffectsDue {
  due_userChange : bool;
  due_persist : bool;
  due_autoSelect : bool;
  due_notify : bool
}.

(** The effects of one commit, in the order they are declared. *)
Definition runEffects (due : EffectsDue) (s : Snapshot) (st : ProviderState)
  : ProviderState :=
  let st1 := if due_userChange due then userChangeEffect s st else st in
  let st2 := if due_persist due then persistEffect s st1 else st1 in
  let st3 := if due_autoSelect due then autoSelectEffect s st2 else st2 in
  if due_notify due then notifyEffect s st3 else st3.

(** [selectEntity] and [selectEntityById]. *)
Definition selectEntity (slug : string) (st : ProviderState) : ProviderState :=
  setSelectedSlug (Some slug) st.

Definition selectEntityById (i : ProviderInput) (entityId : string)
    (st : ProviderState) : ProviderState :=
  match find (λ e, bool_decide (id e = entityId)) (entitiesOf i) with
  | Some entity => setSelectedSlug (Some (entitySlug entity)) st
  | None => st
  end.

(** [CurrentEntityContextValue], without its callbacks. *)
Record CurrentEntityContextValue := mkContextValue {
  ctx_currentEntity : option EntityWithRole;
  ctx_currentEntitySlug : option string;
  ctx_currentEntityId : option string;
  ctx_entities : list EntityWithRole;
  ctx_isLoading : bool;
  ctx_isInitialized : bool
}.

(** The [value] the provider passes down. *)
Definition contextValue (i : ProviderInput) (st : ProviderState)
  : CurrentEntityContextValue :=
  let current := snap_currentEntity (render i st) in
  {| ctx_currentEntity := current;
     ctx_currentEntitySlug := entitySlug <$> current;
     ctx_currentEntityId := id <$> current;
     ctx_entities := if isAuthenticated i then entitiesOf i else [];
     ctx_isLoading := isAuthenticated i && isEntitiesLoading i;
     ctx_isInitialized := isInitialized st |}.

(** A synchronous call either returns or throws. *)
Inductive Completion (A : Type) :=
| Returned (a : A)
| Thrown (e : Error).
Arguments Returned {A} a.
Arguments Thrown {A} e.

(** [useContext(CurrentEntityContext)]: the value of the nearest enclosing
    provider, or the default given to [createContext], which is null.
    [enclosing] lists the values of the providers around the calling
    component, innermost first. *)
Definition useContext_CurrentEntityContext
    (enclosing : list CurrentEntityContextValue)
  : option CurrentEntityContextValue :=
  head enclosing.

(** [useCurrentEntity]. *)
Definition useCurrentEntity (enclosing : list CurrentEntityContextValue)
  : Completion CurrentEntityContextValue :=
  match useContext_CurrentEntityContext enclosing with
  | None =>
      Thrown (mkError
        "useCurrentEntity must be used within CurrentEntityProvider")
  | Some context => Returned context
  end.

(** [useCurrentEntityOptional]. *)
Definition useCurrentEntityOptional
    (enclosing : list CurrentEntityContextValue)
  : Completion (option CurrentEntityContextValue) :=
  Returned (useContext_CurrentEntityContext enclosing).

(** ** The endpoint map *)

(** A call of one of the fourteen accessors, with its arguments. *)
Inductive Operation :=
| ListEntities
| CreateEntity (req : JSON)
| GetEntity (entitySlug : string)
| UpdateEntity (entitySlug : string) (req : JSON)
| DeleteEntity (entitySlug : string)
| ListMembers (entitySlug : string)
| UpdateMemberRole (entitySlug memberId role : string)
| RemoveMember (entitySlug memberId : string)
| ListEntityInvitations (entitySlug : string)
| CreateInvitation (entitySlug : string) (req : JSON)
| CancelInvitation (entitySlug invitationId : string)
| ListMyInvitations
| AcceptInvitation (token : string)
| DeclineInvitation (token : string).

(** The accessor an [Operation] stands for. *)
Definition perform (c : EntityClientConfig) (op : Operation)
  : Async ApiResponse :=
  match op with
  | ListEntities => listEntities c
  | CreateEntity req => createEntity c req
  | GetEntity s => getEntity c s
  | UpdateEntity s req => updateEntity c s req
  | DeleteEntity s => deleteEntity c s
  | ListMembers s => listMembers c s
  | UpdateMemberRole s m r => updateMemberRole c s m r
  | RemoveMember s m => removeMember c s m
  | ListEntityInvitations s => listEntityInvitations c s
  | CreateInvitation s req => createInvitation c s req
  | CancelInvitation s i => cancelInvitation c s i
  | ListMyInvitations => listMyInvitations c
  | AcceptInvitation t => acceptInvitation c t
  | DeclineInvitation t => declineInvitation c t
  end.

(** The path column of the endpoint map of the specification (section 4.2),
    with the placeholders [{slug}], [{id}] and [{token}] filled in. *)
Definition spec_path (op : Operation) : string :=
  match op with
  | ListEntities | CreateEntity _ => "/entities"
  | GetEntity s | UpdateEntity s _ | DeleteEntity s => "/entities/" +:+ s
  | ListMembers s => "/entities/" +:+ s +:+ "/members"
  | UpdateMemberRole s m _ | RemoveMember s m =>
      "/entities/" +:+ s +:+ "/members/" +:+ m
  | ListEntityInvitations s | CreateInvitation s _ =>
      "/entities/" +:+ s +:+ "/invitations"
  | CancelInvitation s i => "/entities/" +:+ s +:+ "/invitations/" +:+ i
  | ListMyInvitations => "/invitations"
  | AcceptInvitation t => "/invitations/" +:+ t +:+ "/accept"
  | DeclineInvitation t => "/invitations/" +:+ t +:+ "/decline"
  end.

(** The verb column of the same table. *)
Definition spec_verb (op : Operation) : string :=
  match op with
  | ListEntities | GetEntity _ | ListMembers _ | ListEntityInvitations _
  | ListMyInvitations => "GET"
  | CreateEntity _ | CreateInvitation _ _ | AcceptInvitation _
  | DeclineInvitation _ => "POST"
  | UpdateEntity _ _ | UpdateMemberRole _ _ _ => "PUT"
  | DeleteEntity _ | RemoveMember _ _ | CancelInvitation _ _ => "DELETE"
  end.

(** The input a write operation sends: the request object of a create or
    an update, the object [{ role }] of a role change. The remaining
    operations carry all their input in the path. *)
Definition spec_payload (op : Operation) : option JSON :=
  match op with
  | CreateEntity req | UpdateEntity _ req | CreateInvitation _ req => Some req
  | UpdateMemberRole _ _ role => Some (JObj [("role", JStr role)])
  | _ => None
  end.

Definition failureEnvelope (msg : string) : ApiResponse :=
  {| success := false; data := None; error := Some msg |}.

(** What the [catch] block of [request] makes of a caught value. *)
Definition caught (rt : Runtime) (error : ThrownValue) : Promise ApiResponse :=
  match error with
  | AnError e => Resolved (failureEnvelope (message e))
  | OtherValue =>
      Resolved {| success := false; data := None; error := None |}
  | Nullish => Rejected (rt_nullishAccess rt)
  end.

(** The [init] object [request] passes to [fetch] for a given token. *)
Definition sentInit (options : RequestInit) (token : string) : RequestInit :=
  {| method := method options; body := body options;
     headers :=
       headers options ∪
       {[ "Content-Type" := "application/json";
          "Authorization" := "Bearer " +:+ token ]} |}.

(** ** The remaining mutation bindings

    The variables of a mutation that takes an object are a record; its
    fields carry the mutation's initials, the names [entitySlug], [request]
    and the like being taken. *)

Record EntityRequestVars := mkEntityRequestVars {
  er_entitySlug : string;
  er_request : JSON
}.

Record MemberRoleVars := mkMemberRoleVars {
  mr_entitySlug : string;
  mr_memberId : string;
  mr_role : string
}.

Record MemberVars := mkMemberVars {
  mv_entitySlug : string;
  mv_memberId : string
}.

Record InvitationVars := mkInvitationVars {
  iv_entitySlug : string;
  iv_invitationId : string
}.

(** [useCreateEntity]. *)
Definition useCreateEntity (client : EntityClientConfig)
  : MutationOptions JSON :=
  {| mutationFn := λ req,
       response ← createEntity client req;
       if negb (success response)
       then throw (error_or (error response) "Failed to create entity")
       else mret (data response);
     onSuccess := λ _ _ qc, invalidateQueries entityKeys.lists qc |}.

(** [useUpdateEntity]. *)
Definition useUpdateEntity (client : EntityClientConfig)
  : MutationOptions EntityRequestVars :=
  {| mutationFn := λ v,
       response ← updateEntity client (er_entitySlug v) (er_request v);
       if negb (success response)
       then throw (error_or (error response) "Failed to update entity")
       else mret (data response);
     onSuccess := λ _ variables qc,
       invalidateQueries entityKeys.lists
         (invalidateQueries (entityKeys.detail (er_entitySlug variables))
            qc) |}.

(** [useDeleteEntity]. *)
Definition useDeleteEntity (client : EntityClientConfig)
  : MutationOptions string :=
  {| mutationFn := λ slug,
       response ← deleteEntity client slug;
       if negb (success response)
       then throw (error_or (error response) "Failed to delete entity")
       else mret None;
     onSuccess := λ _ _ qc, invalidateQueries entityKeys.lists qc |}.

(** [useUpdateMemberRole]. *)
Definition useUpdateMemberRole (client : EntityClientConfig)
  : MutationOptions MemberRoleVars :=
  {| mutationFn := λ v,
       response ← updateMemberRole client
                    (mr_entitySlug v) (mr_memberId v) (mr_role v);
       if negb (success response) || negb (json_truthy (data response))
       then throw (error_or (error response) "Failed to update member role")
       else mret (data response);
     onSuccess := λ _ variables qc,
       invalidateQueries (memberKeys.list (mr_entitySlug variables)) qc |}.

(** [useRemoveMember]. *)
Definition useRemoveMember (client : EntityClientConfig)
  : MutationOptions MemberVars :=
  {| mutationFn := λ v,
       response ← removeMember client (mv_entitySlug v) (mv_memberId v);
       if negb (success response)
       then throw (error_or (error response) "Failed to remove member")
       else mret None;
     onSuccess := λ _ variables qc,
       invalidateQueries (memberKeys.list (mv_entitySlug variables)) qc |}.

(** [useCreateInvitation]. *)
Definition useCreateInvitation (client : EntityClientConfig)
  : MutationOptions EntityRequestVars :=
  {| mutationFn := λ v,
       response ← createInvitation client (er_entitySlug v) (er_request v);
       if negb (success response)
       then throw (error_or (error response) "Failed to create invitation")
       else mret (data response);
     onSuccess := λ _ variables qc,
       invalidateQueries
         (invitationKeys.entityList (er_entitySlug variables)) qc |}.

(** [useCancelInvitation]. *)
Definition useCancelInvitation (client : EntityClientConfig)
  : MutationOptions InvitationVars :=
  {| mutationFn := λ v,
       response ← cancelInvitation client
                    (iv_entitySlug v) (iv_invitationId v);
       if negb (success response)
       then throw (error_or (error response) "Failed to cancel invitation")
       else mret None;
     onSuccess := λ _ variables qc,
       invalidateQueries
         (invitationKeys.entityList (iv_entitySlug variables)) qc |}.

(** A cached query with key [target] is marked stale by a list of
    invalidation requests when one of them covers it. *)
Definition invalidatedBy (requests : QueryClient) (target : QueryKey) : Prop :=
  ∃ k, k ∈ requests ∧ invalidates k target.

(** The five read bindings, with the slug of those that take one. *)
Inductive ReadBinding :=
| ReadEntities
| ReadEntity (entitySlug : option string)
| ReadEntityMembers (entitySlug : option string)
| ReadMyInvitations
| ReadEntityInvitations (entitySlug : option string).

Definition readOptions (client : EntityClientConfig) (b : ReadBinding)
  : QueryOptions :=
  match b with
  | ReadEntities => useEntities client
  | ReadEntity s => useEntity client s
  | ReadEntityMembers s => useEntityMembers client s
  | ReadMyInvitations => useMyInvitations client
  | ReadEntityInvitations s => useEntityInvitations client s
  end.

(** The outcome of the body of the [try] block of [request]: of the call
    and of the parsing of its answer. *)
Definition attempt (config : EntityClientConfig) (path : string)
    (options : RequestInit) (token : string) (rt : Runtime) (tr : Trace)
  : Promise ApiResponse :=
  match rt_fetch rt tr (baseUrl config +:+ path) (sentInit options token) with
  | Resolved response => json response
  | Rejected error => Rejected error
  end.

(** The option objects the accessors pass to [request]. *)
Definition optionsOf (rt : Runtime) (op : Operation) : RequestInit :=
  {| method :=
       match op with
       | ListEntities | GetEntity _ | ListMembers _
       | ListEntityInvitations _ | ListMyInvitations => None
       | _ => Some (spec_verb op)
       end;
     body := rt_stringify rt <$> spec_payload op;
     headers := ∅ |}.

(** Two states agree on the storage outside the controller's key. *)
Definition sameElsewhere (st st' : ProviderState) : Prop :=
  (is_Some (localStorage st') ↔ is_Some (localStorage st))
  ∧ ∀ k, k ≠ STORAGE_KEY →
         (localStorage st' ≫= λ items, items !! k)
         = (localStorage st ≫= λ items, items !! k).

(** ** What a component sees of a query

    The cache engine's side of a read binding, as its documentation gives
    it for a query mounted while nothing is cached under its key: a
    disabled query is not fetched, so it stays without data, in status
    pending; an enabled one is fetched by running its query function. *)
Inductive Observed :=
| NeverFetched
| Fetched (firstRun : Promise (option JSON)).

Definition observe (opts : QueryOptions) (rt : Runtime) (tr : Trace)
  : Observed * Trace :=
  if enabled opts then
    match queryFn opts rt tr with
    | (firstRun, tr') => (Fetched firstRun, tr')
    end
  else (NeverFetched, tr).

(** The [data] of the query result: undefined until a fetch has
    resolved. *)
Definition observedData (o : Observed) : option JSON :=
  match o with
  | Fetched (Resolved d) => d
  | Fetched (Rejected _) | NeverFetched => None
  end.

(** ** Stating the resolution priority *)

(** [e] is the first element of [entities] that satisfies [P]. *)
Definition firstWith (P : EntityWithRole → Prop)
    (entities : list EntityWithRole) (e : EntityWithRole) : Prop :=
  ∃ before after,
    entities = before ++ e :: after ∧ P e ∧ ∀ x, x ∈ before → ¬ P x.

(** The entity bears the selected slug, which is not the empty string. *)
Definition selectedBy (selected : option string) (e : EntityWithRole) : Prop :=
  selected = Some (entitySlug e) ∧ entitySlug e ≠ "".

(** The entity is a personal one. *)
Definition isPersonal (e : EntityWithRole) : Prop := entityType e = PERSONAL.

(** ** Sample data

    The base URL and token of [EntityClient.test.ts], and the two entities
    of the specification's examples. *)

Definition sampleConfig (token : Promise (option string))
  : EntityClientConfig :=
  {| baseUrl := "https://api.example.com/api/v1";
     getAuthToken := λ _, token |}.

(** A server that answers every call with [{ success: true }]. *)
Definition sampleRuntime : Runtime :=
  {| rt_fetch := λ _ _ _,
       Resolved (mkResponse
         (Resolved {| success := true; data := None; error := None |}));
     rt_stringify := λ _, "{}";
     rt_nullishAccess :=
       mkError "Cannot read properties of null (reading 'message')" |}.

(** A network on which every call fails. *)
Definition offlineRuntime : Runtime :=
  {| rt_fetch := λ _ _ _, Rejected (mkError "Network error");
     rt_stringify := λ _, "{}";
     rt_nullishAccess :=
       mkError "Cannot read properties of null (reading 'message')" |}.

(** A network on which every call is rejected with [null], as after
    [AbortController.abort(null)]. *)
Definition abortedRuntime : Runtime :=
  {| rt_fetch := λ _ _ _, Rejected Nullish;
     rt_stringify := λ _, "{}";
     rt_nullishAccess :=
       mkError "Cannot read properties of null (reading 'message')" |}.

Definition aPersonal : EntityWithRole :=
  {| id := "1"; entitySlug := "a-personal"; displayName := "Me";
     entityType := PERSONAL; userRole := "owner" |}.

Definition bOrg : EntityWithRole :=
  {| id := "2"; entitySlug := "b-org"; displayName := "Org";
     entityType := ORGANIZATION; userRole := "member" |}.

(** An entity whose slug is the empty string. *)
Definition unnamedOrg : EntityWithRole :=
  {| id := "3"; entitySlug := ""; displayName := "Unnamed";
     entityType := ORGANIZATION; userRole := "member" |}.

(** A signed-in session with [b-org] selected and persisted, and the
    render that follows the sign-out. *)
Definition signedInState : ProviderState :=
  {| selectedSlug := Some "b-org";
     isInitialized := true;
     previousUserUid := Some "uid-1";
     localStorage := Some {[ STORAGE_KEY := "b-org" ]};
     refetches := 1;
     notified := [Some bOrg] |}.

Definition signedOutInput : ProviderInput :=
  {| user := None;
     defaultEntitySlug := None;
     hasOnEntityChange := true;
     entitiesData := Some [aPersonal; bOrg];
     isEntitiesLoading := false |}.

Definition allEffects : EffectsDue :=
  {| due_userChange := true; due_persist := true;
     due_autoSelect := true; due_notify := true |}.

(** * Properties *)

(** ** Cache keys *)

Lemma buildKey_inj_up_to_alias c1 c2 :
  buildKey c1 = buildKey c2 → c1 = c2 ∨ listAlias c1 c2.
Proof.
  unfold listAlias.
  destruct c1, c2; cbn; intros H; try discriminate H;
    try (left; reflexivity);
    try (injection H as ->; left; reflexivity);
    try (right; left; split; reflexivity);
    try (right; right; split; reflexivity).
Qed.

Lemma not_prefix_head (a b : string) (k l : list string) :
  a ≠ b → ¬ (a :: k) `prefix_of` (b :: l).
Proof. intros Hne [m Hm]. simpl in Hm. congruence. Qed.

(** No key a builder produces starts with the root of another tree: a key
    is under [entityKeys.all] or under [invitationKeys.all], never both. *)
Lemma buildKey_root c :
  (entityKeys.all `prefix_of` buildKey c
   ∧ ¬ invitationKeys.all `prefix_of` buildKey c)
  ∨ (invitationKeys.all `prefix_of` buildKey c
     ∧ ¬ entityKeys.all `prefix_of` buildKey c).
Proof.
  destruct c; cbn;
    first [ left; split; [by eexists | by apply not_prefix_head]
          | right; split; [by eexists | by apply not_prefix_head] ].
Qed.

(** C7, as found in the code: two of the builders collide and the
    entity-scoped invitation key is not under the invitations root.
    [entityKeys.lists()] and [entityKeys.list()] are different builders with
    the same key, and [invitationKeys.entityList("acme")] does not start
    with [invitationKeys.all] but with [entityKeys.detail("acme")]. *)
Lemma cache_keys_not_all_distinct :
  EK_lists ≠ EK_list
  ∧ buildKey EK_lists = buildKey EK_list
  ∧ ¬ invitationKeys.all `prefix_of` invitationKeys.entityList "acme"
  ∧ entityKeys.detail "acme" `prefix_of` invitationKeys.entityList "acme".
Proof.
  split; [discriminate |].
  split; [reflexivity |].
  split; [by apply not_prefix_head | by eexists].
Qed.

(** C7, amended: the key builders are deterministic; two different calls of
    a builder give different keys, except that [entityKeys.list()] is a copy
    of [entityKeys.lists()]; and the keys form the tree
    entities → {list | detail → detail(slug) → {members → list, invitations}}
    with a separate root invitations → {my}: the entity-scoped invitation
    key lies under detail(slug) and not under the invitations root. *)
Theorem cache_keys_tree :
  (∀ c1 c2, c1 = c2 → buildKey c1 = buildKey c2)
  ∧ (∀ c1 c2, buildKey c1 = buildKey c2 → c1 = c2 ∨ listAlias c1 c2)
  ∧ (∀ slug,
       entityKeys.lists = entityKeys.all ++ ["list"]
       ∧ entityKeys.list = entityKeys.lists
       ∧ entityKeys.details = entityKeys.all ++ ["detail"]
       ∧ entityKeys.detail slug = entityKeys.details ++ [slug]
       ∧ memberKeys.all slug = entityKeys.detail slug ++ ["members"]
       ∧ memberKeys.list slug = memberKeys.all slug ++ ["list"]
       ∧ invitationKeys.entityList slug
           = entityKeys.detail slug ++ ["invitations"]
       ∧ invitationKeys.myList = invitationKeys.all ++ ["my"]
       ∧ ¬ invitationKeys.all `prefix_of` invitationKeys.entityList slug
       ∧ ¬ entityKeys.all `prefix_of` invitationKeys.myList).
Proof.
  split; [by intros c1 c2 -> |].
  split; [exact buildKey_inj_up_to_alias |].
  intros slug. repeat split; by apply not_prefix_head.
Qed.

(** ** Invalidation on invitation acceptance *)

Lemma acceptInvitation_onSuccess client r token qc :
  onSuccess (useAcceptInvitation client) r token qc
  = qc ++ [invitationKeys.myList; entityKeys.lists].
Proof. cbn. unfold invalidateQueries. by rewrite <- app_assoc. Qed.

(** Keys in the detail namespace of an entity: [entityKeys.detail(slug)]
    and everything below it cannot be reached from the two keys
    invalidated on acceptance. *)
Lemma acceptance_keys_miss_detail slug rest :
  ¬ invalidates invitationKeys.myList (entityKeys.detail slug ++ rest)
  ∧ ¬ invalidates entityKeys.lists (entityKeys.detail slug ++ rest).
Proof.
  split; [by apply not_prefix_head |].
  intros [m Hm]. cbn in Hm. congruence.
Qed.

Lemma mutate_rejected {V} (opts : MutationOptions V) v rt tr qc e tr' :
  mutationFn opts v rt tr = (Rejected e, tr') →
  mutate opts v rt tr qc = (Rejected e, tr', qc).
Proof. unfold mutate. by intros ->. Qed.

(** C8: when [client.acceptInvitation] answers with [success: true], the
    mutation resolves and the query client receives exactly two
    invalidation requests, first for the caller's own invitation list, then
    for the entities-list namespace; neither request covers a key of the
    detail namespace of any entity. *)
Theorem acceptInvitation_invalidates_two_namespaces
    client token rt tr qc resp tr' :
  acceptInvitation client token rt tr = (Resolved resp, tr') →
  success resp = true →
  mutate (useAcceptInvitation client) token rt tr qc
  = (Resolved None, tr', qc ++ [invitationKeys.myList; entityKeys.lists])
  ∧ ∀ slug rest,
      ¬ invalidates invitationKeys.myList (entityKeys.detail slug ++ rest)
      ∧ ¬ invalidates entityKeys.lists (entityKeys.detail slug ++ rest).
Proof.
  intros Hcall Hok. split; [| exact acceptance_keys_miss_detail].
  unfold mutate. cbn [mutationFn useAcceptInvitation].
  unfold mbind, Async_bind, async_bind. rewrite Hcall, Hok. cbn.
  unfold invalidateQueries. by rewrite <- app_assoc.
Qed.

(** A failed acceptance invalidates nothing. *)
Lemma acceptInvitation_failure_invalidates_nothing
    client token rt tr qc resp tr' :
  acceptInvitation client token rt tr = (Resolved resp, tr') →
  success resp = false →
  (mutate (useAcceptInvitation client) token rt tr qc).2 = qc.
Proof.
  intros Hcall Hko. unfold mutate. cbn [mutationFn useAcceptInvitation].
  unfold mbind, Async_bind, async_bind. by rewrite Hcall, Hko.
Qed.

(** ** Inactive read bindings *)

Lemma disabledKey_not_real c :
  disabledKey ≠ buildKey c
  ∧ ¬ invalidates (buildKey c) disabledKey
  ∧ ¬ invalidates disabledKey (buildKey c).
Proof.
  destruct c; cbn; (split; [discriminate |]);
    split; by apply not_prefix_head.
Qed.

(** C9, as found in the code: a binding with a null slug does not resolve
    to the empty list or to null. It is disabled, so the cache engine never
    runs its query function and its data stays undefined. *)
Lemma null_slug_binding_has_no_data :
  observedData
    (observe (useEntityMembers
                (sampleConfig (Resolved (Some "mock-auth-token"))) None)
       sampleRuntime []).1
  ≠ Some (JArr [])
  ∧ observedData
      (observe (useEntityInvitations
                  (sampleConfig (Resolved (Some "mock-auth-token"))) None)
         sampleRuntime []).1
    ≠ Some (JArr [])
  ∧ observedData
      (observe (useEntity
                  (sampleConfig (Resolved (Some "mock-auth-token"))) None)
         sampleRuntime []).1
    ≠ Some JNull.
Proof. repeat split; discriminate. Qed.

(** C9, amended: with a null slug, each of the three slug-keyed read
    bindings is disabled and carries the sentinel key, which differs from
    every key a builder produces and is neither covered by nor covers any
    of them; the cache engine never runs its query function, so no HTTP
    call is added to the trace and the binding stays without data instead
    of resolving to a value; and the query function itself, should it be
    run all the same, resolves at once to null (single entity) or to the
    empty list (members, invitations) without adding an HTTP call,
    whatever the client's configuration. *)
Theorem null_slug_binding_inactive client rt tr :
  (enabled (useEntity client None) = false
   ∧ enabled (useEntityMembers client None) = false
   ∧ enabled (useEntityInvitations client None) = false)
  ∧ (queryKey (useEntity client None) = disabledKey
     ∧ queryKey (useEntityMembers client None) = disabledKey
     ∧ queryKey (useEntityInvitations client None) = disabledKey)
  ∧ (∀ c, disabledKey ≠ buildKey c
          ∧ ¬ invalidates (buildKey c) disabledKey
          ∧ ¬ invalidates disabledKey (buildKey c))
  ∧ (observe (useEntity client None) rt tr = (NeverFetched, tr)
     ∧ observe (useEntityMembers client None) rt tr = (NeverFetched, tr)
     ∧ observe (useEntityInvitations client None) rt tr = (NeverFetched, tr))
  ∧ (observedData (observe (useEntity client None) rt tr).1 = None
     ∧ observedData (observe (useEntityMembers client None) rt tr).1 = None
     ∧ observedData (observe (useEntityInvitations client None) rt tr).1
       = None)
  ∧ queryFn (useEntity client None) rt tr = (Resolved (Some JNull), tr)
  ∧ queryFn (useEntityMembers client None) rt tr
    = (Resolved (Some (JArr [])), tr)
  ∧ queryFn (useEntityInvitations client None) rt tr
    = (Resolved (Some (JArr [])), tr).
Proof.
  split; [done |]. split; [done |].
  split; [exact disabledKey_not_real |].
  done.
Qed.

(** ** The transport client *)

(** [request] when no token is available: the early return. *)
Lemma request_without_token config path options rt tr token :
  getAuthToken config () = Resolved token →
  truthy token = false →
  request config path options rt tr = (Resolved notAuthenticated, tr).
Proof.
  intros Htok Hfalsy. unfold request, mbind, Async_bind, async_bind, await.
  by rewrite Htok, Hfalsy.
Qed.

(** [request] when there is a token: exactly one call is issued, and
    every failure of the call or of the parsing of its body becomes an
    envelope. *)
Lemma request_with_token config path options rt tr token :
  getAuthToken config () = Resolved (Some token) →
  token ≠ "" →
  let url := baseUrl config +:+ path in
  let init := sentInit options token in
  request config path options rt tr =
    (match rt_fetch rt tr url init with
     | Resolved response =>
         match json response with
         | Resolved body => Resolved body
         | Rejected error => caught rt error
         end
     | Rejected error => caught rt error
     end,
     tr ++ [mkFetchCall url init]).
Proof.
  intros Htok Hne url init.
  unfold request, mbind, Async_bind, async_bind, await, try_catch, fetch.
  rewrite Htok. cbn [truthy]. rewrite bool_decide_true by done.
  cbn [negb]. change (default "" (Some token)) with token.
  fold url. fold (sentInit options token). fold init.
  destruct (rt_fetch rt tr url init) as [[[envelope|[e| |]]]|[e| |]];
    reflexivity.
Qed.

Lemma request_token_rejected config path options rt tr e :
  getAuthToken config () = Rejected e →
  request config path options rt tr = (Rejected e, tr).
Proof.
  intros Htok. unfold request, mbind, Async_bind, async_bind, await.
  by rewrite Htok.
Qed.

Lemma perform_without_token config op rt tr token :
  getAuthToken config () = Resolved token →
  truthy token = false →
  perform config op rt tr = (Resolved notAuthenticated, tr).
Proof.
  intros Htok Hfalsy.
  destruct op; cbn [perform];
    unfold listEntities, createEntity, getEntity, updateEntity, deleteEntity,
      listMembers, updateMemberRole, removeMember, listEntityInvitations,
      createInvitation, cancelInvitation, listMyInvitations,
      acceptInvitation, declineInvitation,
      mbind, Async_bind, async_bind, JSON_stringify;
    by erewrite request_without_token.
Qed.

(** C2: when [getAuthToken] resolves to null, [request], and with it each
    of the accessors, resolves to exactly
    [{success: false, error: "Not authenticated"}] and leaves the trace of
    HTTP calls as it was. *)
Theorem no_token_fails_fast config rt tr :
  getAuthToken config () = Resolved None →
  (∀ path options,
     request config path options rt tr = (Resolved notAuthenticated, tr))
  ∧ (∀ op, perform config op rt tr = (Resolved notAuthenticated, tr)).
Proof.
  intros Htok. split.
  - intros path options. by eapply request_without_token.
  - intros op. by eapply perform_without_token.
Qed.

Lemma no_token_fails_fast_witness :
  request (sampleConfig (Resolved None)) "/entities" noOptions
    sampleRuntime []
  = (Resolved
       {| success := false; data := None;
          error := Some "Not authenticated" |}, []).
Proof.
  exact (proj1 (no_token_fails_fast (sampleConfig (Resolved None))
                  sampleRuntime [] eq_refl) "/entities" noOptions).
Defined.

(** C3, as found in the code: the token is awaited outside the [try]
    block, so a rejection of [getAuthToken] leaves [request] rejected. *)
Lemma request_raises_when_token_rejects :
  request (sampleConfig (Rejected (mkError "token unavailable")))
    "/entities" noOptions sampleRuntime []
  = (Rejected (mkError "token unavailable"), []).
Proof. reflexivity. Qed.

(** The catch block itself throws when the caught value is null: reading
    [error.message] raises a [TypeError], and [request] is rejected with
    it although the token was there. *)
Lemma request_raises_when_fetch_rejects_with_null :
  request (sampleConfig (Resolved (Some "mock-auth-token")))
    "/entities" noOptions abortedRuntime []
  = (Rejected (rt_nullishAccess abortedRuntime),
     [mkFetchCall "https://api.example.com/api/v1/entities"
        (sentInit noOptions "mock-auth-token")]).
Proof. reflexivity. Qed.

(** C3, amended: whenever [getAuthToken] resolves, to a token or to null,
    and the HTTP call does not fail with null or undefined, [request]
    resolves, for every path and every options; a rejection of [fetch]
    (network error) and a rejection of [response.json()] (body that is not
    JSON) with an error are both turned into the envelope
    [{success: false, error: <message>}] with the message of the error.
    When the call or the parsing is rejected with null or undefined, the
    catch block throws on reading [error.message] and [request] is
    rejected with the engine's [TypeError]. *)
Theorem request_failures_become_envelopes config path options rt tr token :
  getAuthToken config () = Resolved token →
  ((∀ t, token = Some t → t ≠ "" →
         attempt config path options t rt tr ≠ Rejected Nullish) →
   ∃ envelope tr',
     request config path options rt tr = (Resolved envelope, tr'))
  ∧ (∀ t (e : Error),
       token = Some t → t ≠ "" →
       rt_fetch rt tr (baseUrl config +:+ path) (sentInit options t)
       = Rejected e →
       (request config path options rt tr).1
       = Resolved (failureEnvelope (message e)))
  ∧ (∀ t response (e : Error),
       token = Some t → t ≠ "" →
       rt_fetch rt tr (baseUrl config +:+ path) (sentInit options t)
       = Resolved response →
       json response = Rejected e →
       (request config path options rt tr).1
       = Resolved (failureEnvelope (message e)))
  ∧ (∀ t,
       token = Some t → t ≠ "" →
       attempt config path options t rt tr = Rejected Nullish →
       (request config path options rt tr).1
       = Rejected (rt_nullishAccess rt)).
Proof.
  intros Htok. split; [| split; [| split]].
  - intros Hsafe. destruct (truthy token) eqn:Htruthy.
    + destruct token as [t|]; [| discriminate].
      cbn in Htruthy. apply bool_decide_eq_true in Htruthy.
      specialize (Hsafe t eq_refl Htruthy). unfold attempt in Hsafe.
      rewrite (request_with_token _ _ _ _ _ t Htok Htruthy).
      destruct (rt_fetch _ _ _ _) as [[[envelope|[e| |]]]|[e| |]];
        cbn [caught]; eauto; done.
    + rewrite (request_without_token _ _ _ _ _ token Htok Htruthy). eauto.
  - intros t e -> Hne Hfetch.
    rewrite (request_with_token _ _ _ _ _ t Htok Hne). cbn [fst].
    by rewrite Hfetch.
  - intros t response e -> Hne Hfetch Hjson.
    rewrite (request_with_token _ _ _ _ _ t Htok Hne). cbn [fst].
    by rewrite Hfetch, Hjson.
  - intros t -> Hne Hnull. unfold attempt in Hnull.
    rewrite (request_with_token _ _ _ _ _ t Htok Hne). cbn [fst].
    destruct (rt_fetch _ _ _ _) as [[body]|error].
    + cbn in Hnull. by rewrite Hnull.
    + by injection Hnull as ->.
Qed.

Lemma request_failures_become_envelopes_witness :
  (request (sampleConfig (Resolved (Some "mock-auth-token")))
     "/entities" noOptions offlineRuntime []).1
  = Resolved
      {| success := false; data := None; error := Some "Network error" |}.
Proof.
  destruct (request_failures_become_envelopes
              (sampleConfig (Resolved (Some "mock-auth-token")))
              "/entities" noOptions offlineRuntime []
              (Some "mock-auth-token") eq_refl) as (_ & Hfetch & _).
  exact (Hfetch "mock-auth-token" (mkError "Network error")
           eq_refl ltac:(discriminate) eq_refl).
Defined.

Lemma sentInit_headers options token :
  headers options = ∅ →
  headers (sentInit options token) !! "Authorization"
  = Some ("Bearer " +:+ token)
  ∧ headers (sentInit options token) !! "Content-Type"
    = Some "application/json".
Proof.
  intros Hempty. cbn [sentInit headers]. rewrite Hempty, (left_id_L ∅ (∪)).
  split.
  - rewrite lookup_insert_ne by discriminate. apply lookup_singleton_eq.
  - apply lookup_insert_eq.
Qed.

(** C4: with a token available, each of the fourteen accessors issues
    exactly one HTTP call, to the base URL followed by the path the
    endpoint map lists for it, with the verb the map lists (an absent
    [method] being a GET), with the JSON serialization of its input as body
    when it is a write operation that carries one and no body otherwise,
    and with the headers [Authorization: Bearer <token>] and
    [Content-Type: application/json]. *)
Theorem accessor_follows_endpoint_map config op rt tr token :
  getAuthToken config () = Resolved (Some token) →
  token ≠ "" →
  ∃ init,
    (perform config op rt tr).2
    = tr ++ [mkFetchCall (baseUrl config +:+ spec_path op) init]
    ∧ effectiveMethod init = spec_verb op
    ∧ body init = rt_stringify rt <$> spec_payload op
    ∧ headers init !! "Authorization" = Some ("Bearer " +:+ token)
    ∧ headers init !! "Content-Type" = Some "application/json".
Proof.
  intros Htok Hne.
  destruct op; cbn [perform];
    unfold listEntities, createEntity, getEntity, updateEntity, deleteEntity,
      listMembers, updateMemberRole, removeMember, listEntityInvitations,
      createInvitation, cancelInvitation, listMyInvitations,
      acceptInvitation, declineInvitation,
      mbind, Async_bind, async_bind, JSON_stringify;
    rewrite (request_with_token _ _ _ _ _ token Htok Hne); cbn [snd];
    (eexists; split; [reflexivity |]);
    (split; [reflexivity |]); (split; [reflexivity |]);
    by apply sentInit_headers.
Qed.

Lemma accessor_follows_endpoint_map_witness :
  ∃ init,
    (perform (sampleConfig (Resolved (Some "mock-auth-token")))
       (UpdateMemberRole "abc12345" "m1" "manager") sampleRuntime []).2
    = [mkFetchCall
         "https://api.example.com/api/v1/entities/abc12345/members/m1" init]
    ∧ effectiveMethod init = "PUT"
    ∧ body init = Some "{}"
    ∧ headers init !! "Authorization" = Some "Bearer mock-auth-token"
    ∧ headers init !! "Content-Type" = Some "application/json".
Proof.
  exact (accessor_follows_endpoint_map
           (sampleConfig (Resolved (Some "mock-auth-token")))
           (UpdateMemberRole "abc12345" "m1" "manager") sampleRuntime []
           "mock-auth-token" eq_refl ltac:(discriminate)).
Defined.

Lemma acceptInvitation_invalidates_two_namespaces_witness :
  (mutate (useAcceptInvitation
             (sampleConfig (Resolved (Some "mock-auth-token"))))
     "token123" sampleRuntime [] []).2
  = [["invitations"; "my"]; ["entities"; "list"]].
Proof.
  destruct (acceptInvitation_invalidates_two_namespaces
              (sampleConfig (Resolved (Some "mock-auth-token")))
              "token123" sampleRuntime [] [] _ _ eq_refl eq_refl)
    as [Hmutate _].
  rewrite Hmutate. reflexivity.
Defined.

(** ** The current-entity controller *)

(** What [find] returns, for the two searches of the controller. *)
Lemma findBySlug_Some selected entities e :
  findBySlug selected entities = Some e →
  e ∈ entities ∧ selected = Some (entitySlug e).
Proof.
  intros Hfind. apply find_some in Hfind as [Hin Hslug].
  split; [by apply list_elem_of_In |].
  by apply bool_decide_eq_true in Hslug.
Qed.

Lemma findBySlug_None selected entities :
  findBySlug selected entities = None ↔
  ∀ e, e ∈ entities → Some (entitySlug e) ≠ selected.
Proof.
  split.
  - intros Hfind e Hin%list_elem_of_In.
    apply (find_none _ _ Hfind) in Hin.
    by apply bool_decide_eq_false in Hin.
  - intros Hnone. induction entities as [|e entities IH]; [done |].
    cbn. rewrite bool_decide_false by (apply Hnone; left).
    apply IH. intros e' Hin. apply Hnone. by right.
Qed.

Lemma findPersonalEntity_Some entities p :
  findPersonalEntity entities = Some p →
  p ∈ entities ∧ entityType p = PERSONAL.
Proof.
  intros Hfind. apply find_some in Hfind as [Hin Htype].
  split; [by apply list_elem_of_In |].
  by apply bool_decide_eq_true in Htype.
Qed.

Lemma findPersonalEntity_None entities :
  findPersonalEntity entities = None ↔
  ∀ e, e ∈ entities → entityType e ≠ PERSONAL.
Proof.
  split.
  - intros Hfind e Hin%list_elem_of_In.
    apply (find_none _ _ Hfind) in Hin.
    by apply bool_decide_eq_false in Hin.
  - intros Hnone. induction entities as [|e entities IH]; [done |].
    cbn. rewrite bool_decide_false by (apply Hnone; left).
    apply IH. intros e' Hin. apply Hnone. by right.
Qed.

(** The selection that takes part in the resolution: an empty string
    counts as no selection. *)
Lemma currentEntity_unfold entities selected :
  currentEntity true entities selected =
    match (if truthy selected then findBySlug selected entities else None) with
    | Some found => Some found
    | None =>
        match findPersonalEntity entities with
        | Some personal => Some personal
        | None => head entities
        end
    end.
Proof.
  unfold currentEntity. destruct entities as [|e entities]; [| done].
  cbn. by destruct (truthy selected).
Qed.

(** C1, as found in the code: the selection is tested for truthiness
    before it is looked up, so the selection [""] is not honoured even
    though an entity with that slug is in the list; the personal entity is
    resolved instead. *)
Lemma empty_selection_not_honoured :
  unnamedOrg ∈ [aPersonal; unnamedOrg]
  ∧ Some (entitySlug unnamedOrg) = Some ""
  ∧ currentEntity true [aPersonal; unnamedOrg] (Some "") = Some aPersonal
  ∧ aPersonal ≠ unnamedOrg.
Proof.
  split; [set_solver |]. split; [reflexivity |].
  split; [reflexivity | discriminate].
Qed.

Lemma find_Some_first {A} (f : A → bool) (l : list A) e :
  find f l = Some e →
  ∃ before after,
    l = before ++ e :: after ∧ f e = true ∧ ∀ x, x ∈ before → f x = false.
Proof.
  induction l as [|y l IH]; [done |]. cbn.
  destruct (f y) eqn:Hy.
  - intros [= ->]. exists [], l. split; [done |]. split; [done |].
    intros x Hx. by apply elem_of_nil in Hx.
  - intros Hfind. destruct (IH Hfind) as (before & after & -> & He & Hbefore).
    exists (y :: before), after. split; [done |]. split; [done |].
    intros x [-> | Hx]%elem_of_cons; [done | by apply Hbefore].
Qed.

Lemma findBySlug_first selected entities e :
  truthy selected = true →
  findBySlug selected entities = Some e →
  firstWith (selectedBy selected) entities e.
Proof.
  intros Htruthy Hfind.
  destruct (find_Some_first _ _ _ Hfind) as (before & after & -> & He & Hb).
  apply bool_decide_eq_true in He.
  exists before, after. split; [done |]. split.
  - split; [done |]. rewrite <- He in Htruthy. cbn in Htruthy.
    by apply bool_decide_eq_true in Htruthy.
  - intros x Hx [Hsel _]. apply Hb in Hx.
    apply bool_decide_eq_false in Hx. by apply Hx.
Qed.

Lemma findPersonalEntity_first entities p :
  findPersonalEntity entities = Some p →
  firstWith isPersonal entities p.
Proof.
  intros Hfind.
  destruct (find_Some_first _ _ _ Hfind) as (before & after & -> & Hp & Hb).
  apply bool_decide_eq_true in Hp.
  exists before, after. split; [done |]. split; [done |].
  intros x Hx Hpers. apply Hb in Hx.
  apply bool_decide_eq_false in Hx. by apply Hx.
Qed.

(** Nothing in the list bears the selection exactly when the lookup the
    code makes, guarded by the truthiness of the selection, finds
    nothing. *)
Lemma no_selected_entity selected entities :
  (∀ e, e ∈ entities → ¬ selectedBy selected e) →
  (if truthy selected then findBySlug selected entities else None) = None.
Proof.
  intros Hnone. destruct (truthy selected) eqn:Htruthy; [| done].
  destruct (findBySlug selected entities) as [f|] eqn:Hfind; [| done].
  exfalso. apply findBySlug_Some in Hfind as [Hin Hsel].
  apply (Hnone f Hin). split; [done |].
  rewrite Hsel in Htruthy. cbn in Htruthy.
  by apply bool_decide_eq_true in Htruthy.
Qed.

(** C1, amended: for an authenticated user and every entity list, the
    current entity is (1) the first entity of the list whose slug equals
    [selectedSlug], when [selectedSlug] is a non-empty string and the list
    has such an entity; otherwise (2) the first entity of the list of type
    PERSONAL, when there is one; otherwise (3) the first entity of the
    list; and (4) null when the list is empty. *)
Theorem currentEntity_priority entities selected :
  ((∃ e, e ∈ entities ∧ selectedBy selected e) →
   ∃ e, currentEntity true entities selected = Some e
        ∧ firstWith (selectedBy selected) entities e)
  ∧ ((∀ e, e ∈ entities → ¬ selectedBy selected e) →
     (∃ p, p ∈ entities ∧ isPersonal p) →
     ∃ p, currentEntity true entities selected = Some p
          ∧ firstWith isPersonal entities p)
  ∧ ((∀ e, e ∈ entities → ¬ selectedBy selected e) →
     (∀ e, e ∈ entities → ¬ isPersonal e) →
     currentEntity true entities selected = head entities)
  ∧ (entities = [] → currentEntity true entities selected = None).
Proof.
  rewrite currentEntity_unfold. split; [| split; [| split]].
  - intros (e & Hin & Hsel & Hne).
    assert (Htruthy : truthy selected = true).
    { rewrite Hsel. cbn. by apply bool_decide_eq_true. }
    rewrite Htruthy.
    destruct (findBySlug selected entities) as [f|] eqn:Hfind.
    + exists f. split; [done |]. by apply findBySlug_first.
    + exfalso. by apply (proj1 (findBySlug_None _ _) Hfind e).
  - intros Hnone (p & Hin & Hpers). rewrite no_selected_entity by done.
    destruct (findPersonalEntity entities) as [q|] eqn:Hfind.
    + exists q. split; [done |]. by apply findPersonalEntity_first.
    + exfalso. by apply (proj1 (findPersonalEntity_None _) Hfind p).
  - intros Hnone Hnopers. rewrite no_selected_entity by done.
    by rewrite (proj2 (findPersonalEntity_None entities)).
  - intros ->. by destruct (truthy selected).
Qed.

(** The three examples of the specification. *)
Example currentEntity_no_selection :
  currentEntity true [aPersonal; bOrg] None = Some aPersonal.
Proof. reflexivity. Qed.

Example currentEntity_persisted_selection :
  currentEntity true [aPersonal; bOrg] (Some "b-org") = Some bOrg.
Proof. reflexivity. Qed.

Example currentEntity_stale_selection :
  currentEntity true [aPersonal; bOrg] (Some "stale-slug") = Some aPersonal.
Proof. reflexivity. Qed.

Lemma head_elem_of {A} (l : list A) x : head l = Some x → x ∈ l.
Proof. destruct l; intros [= ->]. by left. Qed.

Lemma currentEntity_Some authenticated entities selected e :
  currentEntity authenticated entities selected = Some e →
  authenticated = true ∧ e ∈ entities.
Proof.
  unfold currentEntity. destruct authenticated; [| done]. cbn [negb orb].
  case_bool_decide; [done |]. intros Hres. split; [done |].
  destruct (if truthy selected then _ else _) as [found|] eqn:Hsel.
  - injection Hres as <-. destruct (truthy selected); [| done].
    by apply findBySlug_Some in Hsel as [? _].
  - destruct (findPersonalEntity entities) as [personal|] eqn:Hpers.
    + injection Hres as <-. by apply findPersonalEntity_Some in Hpers as [? _].
    + by apply head_elem_of.
Qed.

(** C6: at every render, whatever the props, the query result and the
    state, the current entity the provider exposes is null or an element
    of the entity list of that render, which is also the list the provider
    exposes next to it. *)
Theorem currentEntity_in_current_list i st :
  ctx_currentEntity (contextValue i st) = None
  ∨ ∃ e, ctx_currentEntity (contextValue i st) = Some e
         ∧ e ∈ entitiesOf i
         ∧ e ∈ ctx_entities (contextValue i st).
Proof.
  cbn [contextValue ctx_currentEntity ctx_entities render snap_currentEntity].
  destruct (currentEntity _ _ _) as [e|] eqn:Hres; [right | by left].
  apply currentEntity_Some in Hres as [-> Hin]. eauto.
Qed.

(** *** Logout *)

Lemma persistedSlug_onStorage_delete st :
  persistedSlug (onStorage (delete STORAGE_KEY) st) = None.
Proof.
  unfold persistedSlug, onStorage. cbn [localStorage].
  destruct (localStorage st) as [items|]; [| done].
  cbn. apply lookup_delete_eq.
Qed.

(** The [clear] callback and the logout branch of the first effect do the
    same three things. *)
Lemma clear_clears st :
  selectedSlug (clear st) = None
  ∧ isInitialized (clear st) = false
  ∧ persistedSlug (clear st) = None.
Proof.
  unfold clear. split; [done |]. split; [done |].
  apply persistedSlug_onStorage_delete.
Qed.

(** The first effect on its own, for the test the source applies: the
    current uid is falsy and the recorded one is truthy. *)
Lemma userChangeEffect_logout s st :
  truthy (uid <$> user (snap_input s)) = false →
  truthy (previousUserUid st) = true →
  userChangeEffect s st
  = setPreviousUserUid (uid <$> user (snap_input s)) (clear st).
Proof.
  intros Hnow Hbefore. unfold userChangeEffect.
  rewrite Hnow. cbn [andb negb]. by rewrite Hbefore.
Qed.

Lemma isAuthenticated_no_user i : user i = None → isAuthenticated i = false.
Proof.
  intros Huser. unfold isAuthenticated. rewrite Huser.
  apply bool_decide_false. by intros [? ?].
Qed.

(** The later effects of the same commit leave the cleared cells alone
    when there is no user. *)
Lemma later_effects_signed_out due i sel st :
  user i = None →
  let s := {| snap_input := i; snap_selectedSlug := sel;
              snap_currentEntity :=
                currentEntity (isAuthenticated i) (entitiesOf i) sel |} in
  let st' :=
    runEffects {| due_userChange := false; due_persist := due_persist due;
                  due_autoSelect := due_autoSelect due;
                  due_notify := due_notify due |} s st in
  selectedSlug st' = selectedSlug st
  ∧ isInitialized st' = isInitialized st
  ∧ localStorage st' = localStorage st
  ∧ previousUserUid st' = previousUserUid st.
Proof.
  intros Huser s st'. subst st' s.
  apply isAuthenticated_no_user in Huser.
  unfold runEffects, persistEffect, autoSelectEffect, notifyEffect.
  cbn [due_userChange due_persist due_autoSelect due_notify snap_input].
  rewrite Huser. cbn [negb orb].
  by destruct (due_persist due), (due_autoSelect due), (due_notify due),
    (hasOnEntityChange i).
Qed.

(** C5: in the commit that follows the render in which the user has become
    null, when the uid recorded by the previous run of the first effect is a
    non-empty string and the first effect is due, the controller ends with
    [selectedSlug] null, [isInitialized] false and no entry under the
    storage key; this holds whichever of the other effects run in that
    commit. *)
Theorem logout_clears_selection i st due :
  user i = None →
  truthy (previousUserUid st) = true →
  due_userChange due = true →
  let st' := runEffects due (render i st) st in
  selectedSlug st' = None
  ∧ isInitialized st' = false
  ∧ persistedSlug st' = None
  ∧ previousUserUid st' = None.
Proof.
  intros Huser Hbefore Hdue st'.
  pose proof (later_effects_signed_out due i (selectedSlug st)
                (userChangeEffect (render i st) st) Huser)
    as (Hsel & Hinit & Hstore & Hprev).
  assert (Hsplit : st' =
    runEffects {| due_userChange := false; due_persist := due_persist due;
                  due_autoSelect := due_autoSelect due;
                  due_notify := due_notify due |}
      (render i st) (userChangeEffect (render i st) st)).
  { subst st'. unfold runEffects. by rewrite Hdue. }
  unfold render in Hsplit at 1. rewrite Hsplit.
  unfold persistedSlug. rewrite Hsel, Hinit, Hstore, Hprev.
  rewrite userChangeEffect_logout
    by (cbn [render snap_input]; by rewrite ?Huser).
  cbn [render snap_input]. rewrite Huser.
  pose proof (clear_clears st) as (? & ? & ?). done.
Qed.

Lemma logout_clears_selection_witness :
  let st' :=
    runEffects allEffects (render signedOutInput signedInState)
      signedInState in
  selectedSlug st' = None
  ∧ isInitialized st' = false
  ∧ persistedSlug st' = None
  ∧ previousUserUid st' = None.
Proof.
  exact (logout_clears_selection signedOutInput signedInState allEffects
           eq_refl eq_refl eq_refl).
Defined.

(** The uid a logout finds recorded is the one a previous commit saw. *)
Lemma userChangeEffect_records_uid s st :
  previousUserUid (userChangeEffect s st) = uid <$> user (snap_input s).
Proof. reflexivity. Qed.

(** *** Using the context *)

(** C10: outside every [CurrentEntityProvider], [useCurrentEntity] throws
    an error with the message "useCurrentEntity must be used within
    CurrentEntityProvider", and [useCurrentEntityOptional] returns null
    without throwing. *)
Theorem hooks_outside_provider :
  useCurrentEntity []
  = Thrown (mkError
      "useCurrentEntity must be used within CurrentEntityProvider")
  ∧ useCurrentEntityOptional [] = Returned None.
Proof. split; reflexivity. Qed.

(** Inside a provider both hooks return the value of the nearest one. *)
Lemma hooks_inside_provider value enclosing :
  useCurrentEntity (value :: enclosing) = Returned value
  ∧ useCurrentEntityOptional (value :: enclosing) = Returned (Some value).
Proof. split; reflexivity. Qed.

(** ** Scope of the invalidations *)

Local Set Warnings "-clear-no-such-hyp".

Ltac prefix_cases :=
  unfold invalidates; cbn; split;
  [ intros [rest Hrest]; cbn in Hrest; simplify_eq; set_solver
  | rewrite ?elem_of_cons, ?elem_of_nil; intros Hc;
    repeat (destruct Hc as [Hc | Hc]); try contradiction; simplify_eq; cbn;
    by eexists ].

Lemma covered_by_lists c :
  invalidates entityKeys.lists (buildKey c) ↔ c ∈ [EK_lists; EK_list].
Proof. destruct c; prefix_cases. Qed.

Lemma covered_by_detail slug c :
  invalidates (entityKeys.detail slug) (buildKey c) ↔
  c ∈ [EK_detail slug; MK_all slug; MK_list slug; IK_entityList slug].
Proof. destruct c; prefix_cases. Qed.

Lemma covered_by_member_list slug c :
  invalidates (memberKeys.list slug) (buildKey c) ↔ c ∈ [MK_list slug].
Proof. destruct c; prefix_cases. Qed.

Lemma covered_by_entity_invitations slug c :
  invalidates (invitationKeys.entityList slug) (buildKey c) ↔
  c ∈ [IK_entityList slug].
Proof. destruct c; prefix_cases. Qed.

Lemma covered_by_myList c :
  invalidates invitationKeys.myList (buildKey c) ↔ c ∈ [IK_myList].
Proof. destruct c; prefix_cases. Qed.

Lemma invalidatedBy_two k1 k2 target :
  invalidatedBy [k1; k2] target ↔
  invalidates k1 target ∨ invalidates k2 target.
Proof.
  unfold invalidatedBy. split.
  - intros (k & Hk & Hcov). set_unfold. naive_solver.
  - intros [H | H]; eexists; (split; [| exact H]); set_solver.
Qed.

Lemma invalidatedBy_one k target :
  invalidatedBy [k] target ↔ invalidates k target.
Proof.
  unfold invalidatedBy. split.
  - intros (k' & Hk & Hcov). set_unfold. naive_solver.
  - intros H. exists k. split; [set_solver | done].
Qed.

(** X1: a successful entity update marks stale the detail query of that
    entity together with its member and invitation queries, and the
    entity list; it reaches no key of another entity and none under the
    invitations root. *)
Theorem updateEntity_invalidation_scope client r v c :
  invalidatedBy (onSuccess (useUpdateEntity client) r v []) (buildKey c) ↔
  c ∈ [EK_detail (er_entitySlug v); MK_all (er_entitySlug v);
       MK_list (er_entitySlug v); IK_entityList (er_entitySlug v);
       EK_lists; EK_list].
Proof.
  cbn [onSuccess useUpdateEntity]. unfold invalidateQueries. cbn [app].
  rewrite invalidatedBy_two, covered_by_detail, covered_by_lists.
  set_solver.
Qed.

(** X2: creating and deleting an entity mark stale the entity list and
    nothing else; in particular the detail, member and invitation queries
    of a deleted entity stay as they were. *)
Theorem create_delete_entity_invalidation_scope client r req slug c :
  (invalidatedBy (onSuccess (useCreateEntity client) r req []) (buildKey c)
   ↔ c ∈ [EK_lists; EK_list])
  ∧ (invalidatedBy (onSuccess (useDeleteEntity client) r slug []) (buildKey c)
     ↔ c ∈ [EK_lists; EK_list])
  ∧ ¬ invalidatedBy (onSuccess (useDeleteEntity client) r slug [])
        (entityKeys.detail slug).
Proof.
  cbn [onSuccess useCreateEntity useDeleteEntity].
  unfold invalidateQueries. cbn [app].
  rewrite !invalidatedBy_one. split; [apply covered_by_lists |].
  split; [apply covered_by_lists |].
  change (entityKeys.detail slug) with (buildKey (EK_detail slug)).
  rewrite covered_by_lists. set_solver.
Qed.

(** X3: changing a member's role and removing a member mark stale the
    member list of that entity only: no other key of any builder, and no
    member list of an entity with another slug. *)
Theorem member_mutations_invalidation_scope client r v w c :
  (invalidatedBy (onSuccess (useUpdateMemberRole client) r v []) (buildKey c)
   ↔ c = MK_list (mr_entitySlug v))
  ∧ (invalidatedBy (onSuccess (useRemoveMember client) r w []) (buildKey c)
     ↔ c = MK_list (mv_entitySlug w)).
Proof.
  cbn [onSuccess useUpdateMemberRole useRemoveMember].
  unfold invalidateQueries. cbn [app].
  rewrite !invalidatedBy_one, !covered_by_member_list. set_solver.
Qed.

(** X4: creating and cancelling an invitation mark stale the invitation
    list of that entity only, and declining one the caller's own
    invitation list only; none of the three reaches the entity list, which
    only acceptance invalidates. *)
Theorem invitation_mutations_invalidation_scope client r v w token c :
  (invalidatedBy (onSuccess (useCreateInvitation client) r v []) (buildKey c)
   ↔ c = IK_entityList (er_entitySlug v))
  ∧ (invalidatedBy (onSuccess (useCancelInvitation client) r w []) (buildKey c)
     ↔ c = IK_entityList (iv_entitySlug w))
  ∧ (invalidatedBy (onSuccess (useDeclineInvitation client) r token [])
       (buildKey c)
     ↔ c = IK_myList).
Proof.
  cbn [onSuccess useCreateInvitation useCancelInvitation useDeclineInvitation].
  unfold invalidateQueries. cbn [app].
  rewrite !invalidatedBy_one, !covered_by_entity_invitations,
    covered_by_myList.
  set_solver.
Qed.

(** ** The transport client, continued *)

Ltac unfold_accessors :=
  unfold listEntities, createEntity, getEntity, updateEntity, deleteEntity,
    listMembers, updateMemberRole, removeMember, listEntityInvitations,
    createInvitation, cancelInvitation, listMyInvitations,
    acceptInvitation, declineInvitation,
    mbind, Async_bind, async_bind, JSON_stringify.

Lemma perform_as_request config op rt tr :
  perform config op rt tr
  = request config (spec_path op) (optionsOf rt op) rt tr.
Proof. destruct op; reflexivity. Qed.

Lemma request_trace config path options rt tr :
  ∃ calls,
    (request config path options rt tr).2 = tr ++ calls
    ∧ (length calls ≤ 1)%nat
    ∧ (length calls = 1 ↔
       ∃ t, getAuthToken config () = Resolved (Some t) ∧ t ≠ "").
Proof.
  destruct (getAuthToken config ()) as [token|e] eqn:Htok.
  - destruct (truthy token) eqn:Htruthy.
    + destruct token as [t|]; [| discriminate].
      cbn in Htruthy. apply bool_decide_eq_true in Htruthy.
      rewrite (request_with_token _ _ _ _ _ t Htok Htruthy). cbn [snd].
      eexists. split; [reflexivity |]. split; [done |].
      split; [eauto | done].
    + rewrite (request_without_token _ _ _ _ _ token Htok Htruthy).
      exists []. rewrite app_nil_r. split; [done |]. split; [cbn; lia |].
      split; [done |]. intros (t & [= ->] & Hne).
      cbn in Htruthy. by apply bool_decide_eq_false in Htruthy.
  - rewrite (request_token_rejected _ _ _ _ _ e Htok).
    exists []. rewrite app_nil_r. split; [done |]. split; [cbn; lia |].
    split; [done |]. by intros (t & ? & _).
Qed.

(** X5: no retries. Whatever the token provider and the network
    do, an accessor keeps the calls made before it and adds at most one; it
    adds one exactly when [getAuthToken] resolves to a non-empty string, so
    both null and the empty string count as no token. *)
Theorem accessor_calls_at_most_once config op rt tr :
  ∃ calls,
    (perform config op rt tr).2 = tr ++ calls
    ∧ (length calls ≤ 1)%nat
    ∧ (length calls = 1 ↔
       ∃ t, getAuthToken config () = Resolved (Some t) ∧ t ≠ "").
Proof. rewrite perform_as_request. apply request_trace. Qed.

(** X6: headers given by the caller of [request] win over the two
    defaults, also over [Authorization]; the defaults fill in what the
    caller left out, and [method] and [body] are passed on unchanged. *)
Theorem request_headers_precedence config path options rt tr token :
  getAuthToken config () = Resolved (Some token) →
  token ≠ "" →
  ∃ init,
    (request config path options rt tr).2
    = tr ++ [mkFetchCall (baseUrl config +:+ path) init]
    ∧ method init = method options
    ∧ body init = body options
    ∧ (∀ k v, headers options !! k = Some v → headers init !! k = Some v)
    ∧ (headers options !! "Authorization" = None →
       headers init !! "Authorization" = Some ("Bearer " +:+ token))
    ∧ (headers options !! "Content-Type" = None →
       headers init !! "Content-Type" = Some "application/json")
    ∧ (∀ k, k ≠ "Authorization" → k ≠ "Content-Type" →
            headers init !! k = headers options !! k).
Proof.
  intros Htok Hne. rewrite (request_with_token _ _ _ _ _ token Htok Hne).
  cbn [snd]. eexists. split; [reflexivity |].
  cbn [sentInit method body headers]. split; [done |]. split; [done |].
  split; [| split; [| split]].
  - intros k v Hk. by apply lookup_union_Some_l.
  - intros Hnone. rewrite lookup_union_r by done.
    rewrite lookup_insert_ne by discriminate. apply lookup_singleton_eq.
  - intros Hnone. rewrite lookup_union_r by done. apply lookup_insert_eq.
  - intros k Hauth Hct. rewrite lookup_union_l; [done |].
    rewrite lookup_insert_ne by done. by apply lookup_singleton_ne.
Qed.

Lemma request_headers_precedence_witness :
  ∃ init,
    (request (sampleConfig (Resolved (Some "mock-auth-token"))) "/entities"
       {| method := None; body := None;
          headers := {[ "Authorization" := "Basic abc" ]} |}
       sampleRuntime []).2
    = [mkFetchCall "https://api.example.com/api/v1/entities" init]
    ∧ headers init !! "Authorization" = Some "Basic abc".
Proof.
  destruct (request_headers_precedence
              (sampleConfig (Resolved (Some "mock-auth-token"))) "/entities"
              {| method := None; body := None;
                 headers := {[ "Authorization" := "Basic abc" ]} |}
              sampleRuntime [] "mock-auth-token" eq_refl ltac:(discriminate))
    as (init & Htrace & _ & _ & Hcaller & _).
  exists init. split; [exact Htrace |].
  apply Hcaller. reflexivity.
Defined.

(** X7: the parsed body is handed back as it is. When the server answers
    with an envelope, every accessor resolves to that very envelope,
    whether it reports success or failure and whatever its data. *)
Theorem accessor_returns_server_envelope config op rt tr token envelope :
  getAuthToken config () = Resolved (Some token) →
  token ≠ "" →
  (∀ url init,
     rt_fetch rt tr url init = Resolved (mkResponse (Resolved envelope))) →
  (perform config op rt tr).1 = Resolved envelope.
Proof.
  intros Htok Hne Hfetch. rewrite perform_as_request.
  rewrite (request_with_token _ _ _ _ _ token Htok Hne). cbn [fst].
  by rewrite Hfetch.
Qed.

Lemma accessor_returns_server_envelope_witness :
  (perform (sampleConfig (Resolved (Some "mock-auth-token")))
     (GetEntity "abc12345") sampleRuntime []).1
  = Resolved {| success := true; data := None; error := None |}.
Proof.
  exact (accessor_returns_server_envelope
           (sampleConfig (Resolved (Some "mock-auth-token")))
           (GetEntity "abc12345") sampleRuntime [] "mock-auth-token" _
           eq_refl ltac:(discriminate) (λ _ _, eq_refl)).
Defined.


(** ** The bindings on top of the client *)

Lemma perform_answered config op rt tr token envelope :
  getAuthToken config () = Resolved (Some token) →
  token ≠ "" →
  (∀ url init,
     rt_fetch rt tr url init = Resolved (mkResponse (Resolved envelope))) →
  perform config op rt tr
  = (Resolved envelope,
     tr ++ [mkFetchCall (baseUrl config +:+ spec_path op)
              (sentInit (optionsOf rt op) token)]).
Proof.
  intros Htok Hne Hfetch. rewrite perform_as_request.
  rewrite (request_with_token _ _ _ _ _ token Htok Hne).
  by rewrite Hfetch.
Qed.

Lemma perform_network_error config op rt tr token (e : Error) :
  getAuthToken config () = Resolved (Some token) →
  token ≠ "" →
  (∀ url init, rt_fetch rt tr url init = Rejected e) →
  perform config op rt tr
  = (Resolved (failureEnvelope (message e)),
     tr ++ [mkFetchCall (baseUrl config +:+ spec_path op)
              (sentInit (optionsOf rt op) token)]).
Proof.
  intros Htok Hne Hfetch. rewrite perform_as_request.
  rewrite (request_with_token _ _ _ _ _ token Htok Hne).
  by rewrite Hfetch.
Qed.

(** The accessor a read binding calls when it is enabled. *)
Lemma queryFn_enabled client b :
  enabled (readOptions client b) = true →
  ∃ op fallback lenient,
    fallback ≠ ""
    ∧ ∀ rt tr,
        queryFn (readOptions client b) rt tr =
          (response ← perform client op;
           if negb (success response)
              || (negb lenient && negb (json_truthy (data response)))
           then throw (error_or (error response) fallback)
           else mret (data response)) rt tr.
Proof.
  destruct b as [ | slug | slug | | slug ]; cbn; intros Henabled.
  - exists ListEntities, "Failed to fetch entities", true.
    split; [done |]. intros rt tr. unfold mbind, Async_bind, async_bind.
    cbn. destruct (listEntities _ _ _) as [[r|?] ?]; [| done].
    by rewrite orb_false_r.
  - exists (GetEntity (default "" slug)), "Failed to fetch entity", true.
    split; [done |]. intros rt tr. rewrite Henabled. cbn [negb].
    unfold mbind, Async_bind, async_bind.
    cbn. destruct (getEntity _ _ _ _) as [[r|?] ?]; [| done].
    by rewrite orb_false_r.
  - exists (ListMembers (default "" slug)), "Failed to fetch members", false.
    split; [done |]. intros rt tr. by rewrite Henabled.
  - exists ListMyInvitations, "Failed to fetch invitations", true.
    split; [done |]. intros rt tr. unfold mbind, Async_bind, async_bind.
    cbn. destruct (listMyInvitations _ _ _) as [[r|?] ?]; [| done].
    by rewrite orb_false_r.
  - exists (ListEntityInvitations (default "" slug)),
      "Failed to fetch invitations", true.
    split; [done |]. intros rt tr. rewrite Henabled. cbn [negb].
    unfold mbind, Async_bind, async_bind.
    cbn. destruct (listEntityInvitations _ _ _ _) as [[r|?] ?]; [| done].
    by rewrite orb_false_r.
Qed.

Lemma error_or_truthy msg fallback :
  msg ≠ "" → error_or (Some msg) fallback = msg.
Proof. intros Hne. unfold error_or. cbn. by rewrite bool_decide_true. Qed.

(** X9: without a token (null or the empty string) the query function of
    every enabled read binding rejects with the client's message
    "Not authenticated", and no HTTP call has been made. *)
Theorem reads_without_token client b rt tr token :
  getAuthToken client () = Resolved token →
  truthy token = false →
  enabled (readOptions client b) = true →
  queryFn (readOptions client b) rt tr
  = (Rejected (mkError "Not authenticated"), tr).
Proof.
  intros Htok Hfalsy Henabled.
  destruct (queryFn_enabled client b Henabled)
    as (op & fallback & lenient & _ & ->).
  unfold mbind, Async_bind, async_bind.
  by rewrite (perform_without_token _ _ _ _ token Htok Hfalsy).
Qed.

Lemma reads_without_token_witness :
  queryFn (useEntityMembers (sampleConfig (Resolved None)) (Some "abc12345"))
    sampleRuntime []
  = (Rejected (mkError "Not authenticated"), []).
Proof.
  exact (reads_without_token (sampleConfig (Resolved None))
           (ReadEntityMembers (Some "abc12345")) sampleRuntime [] None
           eq_refl eq_refl eq_refl).
Defined.

(** X10: when the network fails with a non-empty message, the query
    function of every enabled read binding rejects with that same error,
    after exactly one HTTP call: the envelope the client built from the
    failure is turned back into a thrown error. *)
Theorem reads_surface_network_error client b rt tr token (e : Error) :
  getAuthToken client () = Resolved (Some token) →
  token ≠ "" →
  (∀ url init, rt_fetch rt tr url init = Rejected e) →
  message e ≠ "" →
  enabled (readOptions client b) = true →
  ∃ call,
    queryFn (readOptions client b) rt tr = (Rejected e, tr ++ [call]).
Proof.
  intros Htok Hne Hfetch Hmsg Henabled.
  destruct (queryFn_enabled client b Henabled)
    as (op & fallback & lenient & _ & ->).
  unfold mbind, Async_bind, async_bind.
  rewrite (perform_network_error _ _ _ _ token e Htok Hne Hfetch).
  eexists. cbn. unfold throw. rewrite error_or_truthy by done.
  by destruct e.
Qed.

Lemma reads_surface_network_error_witness :
  ∃ call,
    queryFn (useEntities (sampleConfig (Resolved (Some "mock-auth-token"))))
      offlineRuntime []
    = (Rejected (mkError "Network error"), [call]).
Proof.
  exact (reads_surface_network_error
           (sampleConfig (Resolved (Some "mock-auth-token")))
           ReadEntities offlineRuntime [] "mock-auth-token"
           (mkError "Network error")
           eq_refl ltac:(discriminate) (λ _ _, eq_refl)
           ltac:(discriminate) eq_refl).
Defined.

(** X11: an answer [success: true] whose data is missing (or falsy) is
    treated differently by the read bindings: the member list rejects with
    the envelope's error or "Failed to fetch members", while the single
    entity and the entity invitations resolve to that missing data. *)
Theorem success_without_data client slug rt tr token envelope :
  getAuthToken client () = Resolved (Some token) →
  token ≠ "" →
  slug ≠ "" →
  (∀ url init,
     rt_fetch rt tr url init = Resolved (mkResponse (Resolved envelope))) →
  success envelope = true →
  json_truthy (data envelope) = false →
  (queryFn (useEntityMembers client (Some slug)) rt tr).1
  = Rejected (mkError (error_or (error envelope) "Failed to fetch members"))
  ∧ (queryFn (useEntity client (Some slug)) rt tr).1
    = Resolved (data envelope)
  ∧ (queryFn (useEntityInvitations client (Some slug)) rt tr).1
    = Resolved (data envelope).
Proof.
  intros Htok Hne Hslug Hfetch Hok Hdata.
  cbn [queryFn useEntityMembers useEntity useEntityInvitations truthy].
  rewrite bool_decide_true by done. cbn [negb].
  change (default "" (Some slug)) with slug.
  unfold mbind, Async_bind, async_bind.
  change (listMembers client slug) with (perform client (ListMembers slug)).
  change (getEntity client slug) with (perform client (GetEntity slug)).
  change (listEntityInvitations client slug)
    with (perform client (ListEntityInvitations slug)).
  rewrite !(perform_answered _ _ _ _ token envelope Htok Hne Hfetch).
  by rewrite Hok, Hdata.
Qed.

Lemma success_without_data_witness :
  (queryFn (useEntityMembers
              (sampleConfig (Resolved (Some "mock-auth-token")))
              (Some "abc12345")) sampleRuntime []).1
  = Rejected (mkError "Failed to fetch members")
  ∧ (queryFn (useEntity
                (sampleConfig (Resolved (Some "mock-auth-token")))
                (Some "abc12345")) sampleRuntime []).1
    = Resolved None
  ∧ (queryFn (useEntityInvitations
                (sampleConfig (Resolved (Some "mock-auth-token")))
                (Some "abc12345")) sampleRuntime []).1
    = Resolved None.
Proof.
  exact (success_without_data
           (sampleConfig (Resolved (Some "mock-auth-token")))
           "abc12345" sampleRuntime [] "mock-auth-token"
           {| success := true; data := None; error := None |}
           eq_refl ltac:(discriminate) ltac:(discriminate)
           (λ _ _, eq_refl) eq_refl eq_refl).
Defined.

Ltac mutation_without_token Htok Hfalsy :=
  intros; unfold mutate;
  cbn [mutationFn useCreateEntity useUpdateEntity useDeleteEntity
       useUpdateMemberRole useRemoveMember useCreateInvitation
       useCancelInvitation useAcceptInvitation useDeclineInvitation];
  unfold_accessors;
  by erewrite (request_without_token _ _ _ _ _ _ Htok Hfalsy).

(** X12: without a token (null or the empty string) each of the nine
    mutations rejects with "Not authenticated", sends nothing and leaves
    the query client without a new invalidation. *)
Theorem mutations_without_token client rt tr qc token :
  getAuthToken client () = Resolved token →
  truthy token = false →
  let unauthenticated := (Rejected (mkError "Not authenticated"), tr, qc) in
  (∀ v, mutate (useCreateEntity client) v rt tr qc = unauthenticated)
  ∧ (∀ v, mutate (useUpdateEntity client) v rt tr qc = unauthenticated)
  ∧ (∀ v, mutate (useDeleteEntity client) v rt tr qc = unauthenticated)
  ∧ (∀ v, mutate (useUpdateMemberRole client) v rt tr qc = unauthenticated)
  ∧ (∀ v, mutate (useRemoveMember client) v rt tr qc = unauthenticated)
  ∧ (∀ v, mutate (useCreateInvitation client) v rt tr qc = unauthenticated)
  ∧ (∀ v, mutate (useCancelInvitation client) v rt tr qc = unauthenticated)
  ∧ (∀ v, mutate (useAcceptInvitation client) v rt tr qc = unauthenticated)
  ∧ (∀ v, mutate (useDeclineInvitation client) v rt tr qc = unauthenticated).
Proof.
  intros Htok Hfalsy unauthenticated. subst unauthenticated.
  repeat split; mutation_without_token Htok Hfalsy.
Qed.

Lemma mutations_without_token_witness :
  mutate (useDeleteEntity (sampleConfig (Resolved (Some ""))))
    "abc12345" sampleRuntime [] []
  = (Rejected (mkError "Not authenticated"), [], []).
Proof.
  destruct (mutations_without_token (sampleConfig (Resolved (Some "")))
              sampleRuntime [] [] (Some "") eq_refl eq_refl)
    as (_ & _ & Hdelete & _).
  exact (Hdelete "abc12345").
Defined.

(** X13: a role change the server answers with [success: true] but
    without data is reported as a failure: the PUT has been sent, the
    mutation rejects with the envelope's error or
    "Failed to update member role", and the member list is not
    invalidated. *)
Theorem updateMemberRole_success_without_data
    client v rt tr qc token envelope :
  getAuthToken client () = Resolved (Some token) →
  token ≠ "" →
  (∀ url init,
     rt_fetch rt tr url init = Resolved (mkResponse (Resolved envelope))) →
  success envelope = true →
  json_truthy (data envelope) = false →
  ∃ call,
    mutate (useUpdateMemberRole client) v rt tr qc
    = (Rejected (mkError (error_or (error envelope)
                            "Failed to update member role")),
       tr ++ [call], qc)
    ∧ effectiveMethod (call_init call) = "PUT".
Proof.
  intros Htok Hne Hfetch Hok Hdata. unfold mutate.
  cbn [mutationFn useUpdateMemberRole].
  unfold mbind, Async_bind, async_bind.
  change (updateMemberRole client (mr_entitySlug v) (mr_memberId v)
            (mr_role v))
    with (perform client
            (UpdateMemberRole (mr_entitySlug v) (mr_memberId v) (mr_role v))).
  rewrite (perform_answered _ _ _ _ token envelope Htok Hne Hfetch).
  rewrite Hok, Hdata. cbn. eauto.
Qed.

Lemma updateMemberRole_success_without_data_witness :
  ∃ call,
    mutate (useUpdateMemberRole
              (sampleConfig (Resolved (Some "mock-auth-token"))))
      (mkMemberRoleVars "abc12345" "m1" "manager") sampleRuntime [] []
    = (Rejected (mkError "Failed to update member role"), [call], [])
    ∧ effectiveMethod (call_init call) = "PUT".
Proof.
  exact (updateMemberRole_success_without_data
           (sampleConfig (Resolved (Some "mock-auth-token")))
           (mkMemberRoleVars "abc12345" "m1" "manager") sampleRuntime [] []
           "mock-auth-token"
           {| success := true; data := None; error := None |}
           eq_refl ltac:(discriminate) (λ _ _, eq_refl) eq_refl eq_refl).
Defined.

(** ** The current-entity controller, continued *)

Lemma initialSelectedSlug_stored items s defaultSlug :
  items !! STORAGE_KEY = Some s →
  s ≠ "" →
  initialSelectedSlug (Some items) defaultSlug = Some s.
Proof.
  intros Hs Hne. unfold initialSelectedSlug, js_or. rewrite Hs. cbn.
  rewrite bool_decide_true by done. cbn. by rewrite bool_decide_true.
Qed.

(** X14: the initial selection is the persisted slug when there is a
    window and the stored value is non-empty, else the default slug when
    that is non-empty, else null; it is never the empty string. *)
Theorem initialSelectedSlug_cases storage defaultSlug :
  initialSelectedSlug storage defaultSlug ≠ Some ""
  ∧ (∀ items s,
       storage = Some items → items !! STORAGE_KEY = Some s → s ≠ "" →
       initialSelectedSlug storage defaultSlug = Some s)
  ∧ (truthy (storage ≫= λ items, items !! STORAGE_KEY) = false →
     initialSelectedSlug storage defaultSlug
     = if truthy defaultSlug then defaultSlug else None).
Proof.
  unfold initialSelectedSlug, js_or. split; [| split].
  - destruct storage as [items|].
    + destruct (truthy (items !! STORAGE_KEY)) eqn:Hstored.
      * rewrite Hstored. intros Heq. rewrite Heq in Hstored. done.
      * destruct (truthy defaultSlug) eqn:Hdef; rewrite ?Hdef; [| done].
        intros Heq. rewrite Heq in Hdef. done.
    + destruct (truthy defaultSlug) eqn:Hdef; [| done].
      intros Heq. rewrite Heq in Hdef. done.
  - intros items s -> Hs Hne. fold (js_or (items !! STORAGE_KEY) defaultSlug).
    fold (js_or (js_or (items !! STORAGE_KEY) defaultSlug) None).
    by apply (initialSelectedSlug_stored items s defaultSlug).
  - destruct storage as [items|]; cbn.
    + intros ->. by destruct (truthy defaultSlug) eqn:Hdef; rewrite ?Hdef.
    + intros _. by destruct (truthy defaultSlug).
Qed.

Lemma findBySlug_unique entities e :
  NoDup (entitySlug <$> entities) →
  e ∈ entities →
  findBySlug (Some (entitySlug e)) entities = Some e.
Proof.
  unfold findBySlug.
  induction entities as [|x entities IH]; intros Hnodup Hin.
  - by apply elem_of_nil in Hin.
  - cbn in Hnodup. apply NoDup_cons in Hnodup as [Hx Hnodup].
    cbn. case_bool_decide as Hslug.
    + apply elem_of_cons in Hin as [-> | Hin]; [done |].
      exfalso. apply Hx. injection Hslug as ->.
      by apply list_elem_of_fmap_2.
    + apply elem_of_cons in Hin as [-> | Hin]; [done |]. by apply IH.
Qed.

Lemma currentEntity_of_own_slug entities e :
  NoDup (entitySlug <$> entities) →
  e ∈ entities →
  entitySlug e ≠ "" →
  currentEntity true entities (Some (entitySlug e)) = Some e.
Proof.
  intros Hnodup Hin Hne. rewrite currentEntity_unfold. cbn [truthy].
  rewrite bool_decide_true by done. by rewrite findBySlug_unique.
Qed.

(** X15: persist and restore. When the persist effect runs with a
    window, a current entity of non-empty slug is written under the storage
    key; a provider initialised from that storage later, whatever its
    default slug, resolves the same entity again as long as the entity list
    has it under a slug no other entity bears. *)
Theorem persist_restore_roundtrip i st items e defaultSlug entities' :
  localStorage st = Some items →
  snap_currentEntity (render i st) = Some e →
  entitySlug e ≠ "" →
  NoDup (entitySlug <$> entities') →
  e ∈ entities' →
  let st' := persistEffect (render i st) st in
  persistedSlug st' = Some (entitySlug e)
  ∧ currentEntity true entities'
      (selectedSlug (initialState (localStorage st') defaultSlug))
    = Some e.
Proof.
  intros Hstore Hcur Hne Hnodup Hin st'.
  assert (Hauth : isAuthenticated i = true).
  { cbn in Hcur. by apply currentEntity_Some in Hcur as [? _]. }
  assert (Hls : localStorage st' = Some (<[STORAGE_KEY := entitySlug e]> items)).
  { subst st'. unfold persistEffect. cbn [snap_input render].
    rewrite Hauth, Hcur. cbn [negb andb].
    destruct (negb (isEntitiesLoading i)); cbn; by rewrite Hstore. }
  rewrite Hls. split.
  { unfold persistedSlug. rewrite Hls. cbn. apply lookup_insert_eq. }
  cbn [initialState selectedSlug].
  rewrite (initialSelectedSlug_stored _ (entitySlug e))
    by (by rewrite ?lookup_insert_eq).
  by apply currentEntity_of_own_slug.
Qed.

Lemma persist_restore_roundtrip_witness :
  let i := {| user := Some (mkAuthUser "uid-1" None);
              defaultEntitySlug := None; hasOnEntityChange := false;
              entitiesData := Some [aPersonal; bOrg];
              isEntitiesLoading := false |} in
  let st' := persistEffect (render i signedInState) signedInState in
  persistedSlug st' = Some "b-org"
  ∧ currentEntity true [bOrg; aPersonal]
      (selectedSlug (initialState (localStorage st') (Some "a-personal")))
    = Some bOrg.
Proof.
  exact (persist_restore_roundtrip
           {| user := Some (mkAuthUser "uid-1" None);
              defaultEntitySlug := None; hasOnEntityChange := false;
              entitiesData := Some [aPersonal; bOrg];
              isEntitiesLoading := false |}
           signedInState {[ STORAGE_KEY := "b-org" ]} bOrg
           (Some "a-personal") [bOrg; aPersonal]
           eq_refl eq_refl ltac:(discriminate)
           ltac:(apply (bool_decide_unpack
                          (NoDup (entitySlug <$> [bOrg; aPersonal])));
                 vm_compute; exact I)
           ltac:(left)).
Defined.

Lemma reselect_slug entities selected e :
  currentEntity true entities selected = Some e →
  ∃ e', currentEntity true entities (Some (entitySlug e)) = Some e'
        ∧ entitySlug e' = entitySlug e
        ∧ (NoDup (entitySlug <$> entities) → e' = e).
Proof.
  intros Hcur. destruct (decide (entitySlug e = "")) as [Hempty | Hne].
  - exists e. split; [| done].
    rewrite currentEntity_unfold in *. cbn [truthy].
    rewrite bool_decide_false by (by intros ?).
    destruct (truthy selected) eqn:Htruthy; [| done].
    destruct (findBySlug selected entities) as [f|] eqn:Hfind; [| done].
    injection Hcur as ->. apply findBySlug_Some in Hfind as [_ ->].
    cbn in Htruthy. apply bool_decide_eq_true in Htruthy. done.
  - pose proof (currentEntity_Some _ _ _ _ Hcur) as [_ Hin].
    rewrite currentEntity_unfold. cbn [truthy].
    rewrite bool_decide_true by done.
    destruct (findBySlug (Some (entitySlug e)) entities) as [f|] eqn:Hfind.
    + exists f. split; [done |].
      pose proof (findBySlug_Some _ _ _ Hfind) as [_ [= Hslug]].
      split; [done |]. intros Hnodup.
      rewrite findBySlug_unique in Hfind by done. by injection Hfind.
    + exfalso. by eapply (proj1 (findBySlug_None _ _) Hfind e).
Qed.

Lemma autoSelectEffect_only_selects s st :
  autoSelectEffect s st
  = setSelectedSlug (selectedSlug (autoSelectEffect s st)) st.
Proof.
  unfold autoSelectEffect.
  repeat (case_match; try done); by destruct st.
Qed.

Lemma autoSelect_selected i st :
  isAuthenticated i = true →
  isEntitiesLoading i = false →
  entitiesOf i ≠ [] →
  selectedSlug (autoSelectEffect (render i st) st)
  = entitySlug <$> currentEntity true (entitiesOf i) (selectedSlug st).
Proof.
  intros Hauth Hload Hnonempty. rewrite currentEntity_unfold.
  unfold autoSelectEffect. cbn [render snap_input snap_selectedSlug].
  rewrite Hauth, Hload. cbn [negb orb].
  rewrite bool_decide_false by (by destruct (entitiesOf i)).
  destruct (truthy (selectedSlug st)) eqn:Htruthy; cbn [negb orb].
  - destruct (findBySlug (selectedSlug st) (entitiesOf i)) as [f|] eqn:Hfind.
    + rewrite bool_decide_true by eauto. cbn.
      by apply findBySlug_Some in Hfind as [_ ->].
    + rewrite bool_decide_false by (by intros [? ?]). cbn [negb].
      destruct (findPersonalEntity (entitiesOf i)); [done |].
      by destruct (entitiesOf i).
  - destruct (findPersonalEntity (entitiesOf i)); [done |].
    by destruct (entitiesOf i).
Qed.

(** X16: once the list is loaded and non-empty for a signed-in user, the
    auto-select effect leaves [selectedSlug] equal to the slug of the
    entity that render resolved as current, and running the effect again
    on the resulting state changes nothing. *)
Theorem autoSelect_follows_currentEntity i st :
  isAuthenticated i = true →
  isEntitiesLoading i = false →
  entitiesOf i ≠ [] →
  let st' := autoSelectEffect (render i st) st in
  selectedSlug st' = entitySlug <$> snap_currentEntity (render i st)
  ∧ autoSelectEffect (render i st') st' = st'.
Proof.
  intros Hauth Hload Hnonempty st'.
  assert (Hsel : selectedSlug st'
                 = entitySlug <$> snap_currentEntity (render i st)).
  { subst st'. cbn [render snap_currentEntity]. rewrite Hauth.
    by apply autoSelect_selected. }
  split; [done |].
  rewrite autoSelectEffect_only_selects.
  rewrite (autoSelect_selected i st' Hauth Hload Hnonempty).
  rewrite Hsel. cbn [render snap_currentEntity]. rewrite Hauth.
  destruct (currentEntity true (entitiesOf i) (selectedSlug st))
    as [e|] eqn:Hcur.
  - change (entitySlug <$> Some e) with (Some (entitySlug e)).
    destruct (reselect_slug _ _ _ Hcur) as (e' & -> & Hslug & _).
    cbn. rewrite Hslug.
    replace (Some (entitySlug e)) with (selectedSlug st'); [by destruct st' |].
    rewrite Hsel. cbn [render snap_currentEntity]. by rewrite Hauth, Hcur.
  - exfalso. rewrite currentEntity_unfold in Hcur.
    destruct (if truthy _ then _ else _); [done |].
    destruct (findPersonalEntity _); [done |].
    by destruct (entitiesOf i).
Qed.

Lemma autoSelect_follows_currentEntity_witness :
  let i := {| user := Some (mkAuthUser "uid-1" None);
              defaultEntitySlug := None; hasOnEntityChange := false;
              entitiesData := Some [bOrg; aPersonal];
              isEntitiesLoading := false |} in
  let st' := autoSelectEffect (render i (initialState None (Some "stale-slug")))
               (initialState None (Some "stale-slug")) in
  selectedSlug st' = Some "a-personal"
  ∧ autoSelectEffect (render i st') st' = st'.
Proof.
  exact (autoSelect_follows_currentEntity
           {| user := Some (mkAuthUser "uid-1" None);
              defaultEntitySlug := None; hasOnEntityChange := false;
              entitiesData := Some [bOrg; aPersonal];
              isEntitiesLoading := false |}
           (initialState None (Some "stale-slug"))
           eq_refl eq_refl ltac:(discriminate)).
Defined.

(** X17: with slugs that are unique in the list, the auto-select effect
    never changes which entity is current: the render that follows it
    resolves the same entity as the render before it. *)
Theorem autoSelect_keeps_current_entity i st :
  isAuthenticated i = true →
  isEntitiesLoading i = false →
  entitiesOf i ≠ [] →
  NoDup (entitySlug <$> entitiesOf i) →
  snap_currentEntity (render i (autoSelectEffect (render i st) st))
  = snap_currentEntity (render i st).
Proof.
  intros Hauth Hload Hnonempty Hnodup.
  cbn [render snap_currentEntity]. rewrite Hauth.
  rewrite (autoSelect_selected i st Hauth Hload Hnonempty).
  destruct (currentEntity true (entitiesOf i) (selectedSlug st))
    as [e|] eqn:Hcur.
  - change (entitySlug <$> Some e) with (Some (entitySlug e)).
    destruct (reselect_slug _ _ _ Hcur) as (e' & -> & _ & Hsame).
    f_equal. by apply Hsame.
  - exfalso. rewrite currentEntity_unfold in Hcur.
    destruct (if truthy _ then _ else _); [done |].
    destruct (findPersonalEntity _); [done |].
    by destruct (entitiesOf i).
Qed.

Lemma autoSelect_keeps_current_entity_witness :
  let i := {| user := Some (mkAuthUser "uid-1" None);
              defaultEntitySlug := None; hasOnEntityChange := false;
              entitiesData := Some [bOrg; aPersonal];
              isEntitiesLoading := false |} in
  snap_currentEntity
    (render i (autoSelectEffect (render i (initialState None None))
                 (initialState None None)))
  = Some aPersonal.
Proof.
  exact (autoSelect_keeps_current_entity
           {| user := Some (mkAuthUser "uid-1" None);
              defaultEntitySlug := None; hasOnEntityChange := false;
              entitiesData := Some [bOrg; aPersonal];
              isEntitiesLoading := false |}
           (initialState None None)
           eq_refl eq_refl ltac:(discriminate)
           ltac:(apply (bool_decide_unpack
                          (NoDup (entitySlug <$> [bOrg; aPersonal])));
                 vm_compute; exact I)).
Defined.

Lemma find_by_id_unique entities e :
  NoDup (id <$> entities) →
  e ∈ entities →
  find (λ x, bool_decide (id x = id e)) entities = Some e.
Proof.
  induction entities as [|x entities IH]; intros Hnodup Hin.
  - by apply elem_of_nil in Hin.
  - cbn in Hnodup. apply NoDup_cons in Hnodup as [Hx Hnodup].
    cbn. case_bool_decide as Hid.
    + apply elem_of_cons in Hin as [-> | Hin]; [done |].
      exfalso. apply Hx. rewrite Hid. by apply list_elem_of_fmap_2.
    + apply elem_of_cons in Hin as [-> | Hin]; [done |]. by apply IH.
Qed.

(** X18: [selectEntityById] ignores an id no entity of the list has; for
    the id of a listed entity it selects that entity's slug, so that, ids
    and slugs being unique in the list and the slug non-empty, the next
    render of a signed-in user resolves exactly that entity. *)
Theorem selectEntityById_cases i entityId st :
  ((∀ e, e ∈ entitiesOf i → id e ≠ entityId) →
   selectEntityById i entityId st = st)
  ∧ (∀ e, isAuthenticated i = true →
          e ∈ entitiesOf i → id e = entityId → entitySlug e ≠ "" →
          NoDup (id <$> entitiesOf i) →
          NoDup (entitySlug <$> entitiesOf i) →
          snap_currentEntity (render i (selectEntityById i entityId st))
          = Some e).
Proof.
  unfold selectEntityById. split.
  - intros Hnone.
    destruct (find _ (entitiesOf i)) as [x|] eqn:Hfind; [| done].
    apply find_some in Hfind as [Hin%list_elem_of_In Hid].
    apply bool_decide_eq_true in Hid. by apply Hnone in Hin.
  - intros e Hauth Hin <- Hne Hids Hslugs.
    rewrite find_by_id_unique by done.
    cbn [render snap_currentEntity setSelectedSlug selectedSlug].
    rewrite Hauth. by apply currentEntity_of_own_slug.
Qed.

Lemma sameElsewhere_refl st : sameElsewhere st st.
Proof. by split. Qed.

Lemma sameElsewhere_trans st1 st2 st3 :
  sameElsewhere st1 st2 → sameElsewhere st2 st3 → sameElsewhere st1 st3.
Proof.
  intros [Hw12 Hk12] [Hw23 Hk23]. split.
  - by rewrite Hw23.
  - intros k Hk. by rewrite Hk23, Hk12.
Qed.

Lemma sameElsewhere_storage st st' :
  localStorage st' = localStorage st → sameElsewhere st st'.
Proof. intros Heq. unfold sameElsewhere. by rewrite Heq. Qed.

Lemma sameElsewhere_delete st st' :
  localStorage st' = delete STORAGE_KEY <$> localStorage st →
  sameElsewhere st st'.
Proof.
  intros Heq. unfold sameElsewhere. rewrite Heq. split.
  - by rewrite fmap_is_Some.
  - intros k Hk. destruct (localStorage st) as [items|]; [| done].
    cbn. by rewrite lookup_delete_ne.
Qed.

Lemma sameElsewhere_insert st st' v :
  localStorage st' = insert STORAGE_KEY v <$> localStorage st →
  sameElsewhere st st'.
Proof.
  intros Heq. unfold sameElsewhere. rewrite Heq. split.
  - by rewrite fmap_is_Some.
  - intros k Hk. destruct (localStorage st) as [items|]; [| done].
    cbn. by rewrite lookup_insert_ne.
Qed.

Lemma userChangeEffect_sameElsewhere s st :
  sameElsewhere st (userChangeEffect s st).
Proof.
  unfold userChangeEffect.
  destruct (truthy (uid <$> user (snap_input s)) && _); cbn [negb andb];
    (destruct (negb _ && _);
     [by apply sameElsewhere_delete | by apply sameElsewhere_storage]).
Qed.

Lemma persistEffect_sameElsewhere s st :
  sameElsewhere st (persistEffect s st).
Proof.
  unfold persistEffect.
  destruct (negb (isAuthenticated _)); [apply sameElsewhere_refl |].
  destruct (snap_currentEntity s) as [e|];
    destruct (negb (isEntitiesLoading _) && _);
    first [ by apply (sameElsewhere_insert _ _ (entitySlug e))
          | by apply sameElsewhere_storage ].
Qed.

Lemma autoSelectEffect_sameElsewhere s st :
  sameElsewhere st (autoSelectEffect s st).
Proof.
  rewrite autoSelectEffect_only_selects. by apply sameElsewhere_storage.
Qed.

Lemma notifyEffect_sameElsewhere s st :
  sameElsewhere st (notifyEffect s st).
Proof.
  unfold notifyEffect.
  destruct (hasOnEntityChange _); by apply sameElsewhere_storage.
Qed.

(** X19: the controller owns one storage entry. Whatever effects run in
    a commit, and whatever the [clear], [selectEntity] and
    [selectEntityById] callbacks do, every entry of [localStorage] under
    another key is left as it was, and a storage that was there stays
    there. *)
Theorem controller_touches_only_its_key due s st i slug entityId k :
  k ≠ STORAGE_KEY →
  ∀ st',
    st' ∈ [runEffects due s st; clear st; selectEntity slug st;
           selectEntityById i entityId st] →
    (localStorage st' ≫= λ items, items !! k)
    = (localStorage st ≫= λ items, items !! k)
    ∧ (is_Some (localStorage st') ↔ is_Some (localStorage st)).
Proof.
  intros Hk st' Hst'.
  enough (Hsame : sameElsewhere st st').
  { destruct Hsame as [Hw Hother]. split; [by apply Hother | done]. }
  rewrite !elem_of_cons, elem_of_nil in Hst'.
  destruct Hst' as [-> | [-> | [-> | [-> | []]]]].
  - unfold runEffects.
    eapply sameElsewhere_trans;
      [| destruct (due_notify due);
         [apply notifyEffect_sameElsewhere | apply sameElsewhere_refl]].
    eapply sameElsewhere_trans;
      [| destruct (due_autoSelect due);
         [apply autoSelectEffect_sameElsewhere | apply sameElsewhere_refl]].
    eapply sameElsewhere_trans;
      [| destruct (due_persist due);
         [apply persistEffect_sameElsewhere | apply sameElsewhere_refl]].
    destruct (due_userChange due);
      [apply userChangeEffect_sameElsewhere | apply sameElsewhere_refl].
  - by apply sameElsewhere_delete.
  - by apply sameElsewhere_storage.
  - unfold selectEntityById.
    destruct (find _ _); by apply sameElsewhere_storage.
Qed.

Lemma controller_touches_only_its_key_witness :
  let st := {| selectedSlug := Some "b-org"; isInitialized := true;
               previousUserUid := Some "uid-1";
               localStorage :=
                 Some {[ STORAGE_KEY := "b-org"; "theme" := "dark" ]};
               refetches := 1; notified := [] |} in
  (localStorage (runEffects allEffects (render signedOutInput st) st)
     ≫= λ items, items !! "theme")
  = Some "dark".
Proof.
  intros st.
  destruct (controller_touches_only_its_key allEffects
              (render signedOutInput st) st signedOutInput "" "" "theme"
              ltac:(discriminate)
              (runEffects allEffects (render signedOutInput st) st)
              ltac:(left)) as [Hother _].
  rewrite Hother. reflexivity.
Defined.

(** X20: the first effect refetches exactly when the current uid is a
    non-empty string different from the recorded one, and then once; run a
    second time for the same user it refetches no more and changes
    nothing. *)
Theorem userChangeEffect_refetches_once s st :
  refetches (userChangeEffect s st)
  = (if truthy (uid <$> user (snap_input s))
        && bool_decide (uid <$> user (snap_input s) ≠ previousUserUid st)
     then S (refetches st) else refetches st)
  ∧ userChangeEffect s (userChangeEffect s st) = userChangeEffect s st.
Proof.
  destruct st as [sel init prev storage n log].
  set (currentUid := uid <$> user (snap_input s)).
  assert (Hstep : ∀ sel' init' prev' storage' n',
    userChangeEffect s (mkProviderState sel' init' prev' storage' n' log)
    = if truthy currentUid && bool_decide (currentUid ≠ prev')
      then mkProviderState sel' init' currentUid storage' (S n') log
      else if negb (truthy currentUid) && truthy prev'
      then mkProviderState None false currentUid
             (delete STORAGE_KEY <$> storage') n' log
      else mkProviderState sel' init' currentUid storage' n' log).
  { intros. unfold userChangeEffect. fold currentUid.
    cbn [previousUserUid refetch].
    destruct (truthy currentUid) eqn:Hcur; cbn [negb andb previousUserUid].
    - case_bool_decide; reflexivity.
    - destruct (truthy prev'); reflexivity. }
  rewrite !Hstep. cbn [previousUserUid refetches].
  destruct (truthy currentUid) eqn:Hcur; cbn [negb andb].
  - case_bool_decide as Hnew; (split; [done |]); rewrite Hstep, Hcur;
      cbn [negb andb]; by rewrite bool_decide_false by (by intros ?).
  - destruct (truthy prev) eqn:Hprev; (split; [done |]);
      rewrite Hstep, Hcur; cbn [negb andb]; by rewrite ?Hcur, ?Hprev.
Qed.

(** X21: the first effect clears only on a logout. Unless the current uid
    is absent or empty while the recorded one is a non-empty string, it
    leaves [selectedSlug], [isInitialized] and the storage as they are; in
    particular a direct change from one signed-in user to another keeps
    the previous selection and its persisted slug. *)
Theorem userChangeEffect_clears_only_on_logout s st :
  ¬ (truthy (uid <$> user (snap_input s)) = false
     ∧ truthy (previousUserUid st) = true) →
  selectedSlug (userChangeEffect s st) = selectedSlug st
  ∧ isInitialized (userChangeEffect s st) = isInitialized st
  ∧ localStorage (userChangeEffect s st) = localStorage st.
Proof.
  intros Hnot. unfold userChangeEffect.
  destruct (truthy (uid <$> user (snap_input s))) eqn:Hcur; cbn [negb andb].
  - by case_bool_decide.
  - destruct (truthy (previousUserUid st)) eqn:Hprev; [| done].
    by destruct Hnot.
Qed.

Lemma userChangeEffect_clears_only_on_logout_witness :
  let i := {| user := Some (mkAuthUser "uid-2" None);
              defaultEntitySlug := None; hasOnEntityChange := false;
              entitiesData := Some [aPersonal; bOrg];
              isEntitiesLoading := false |} in
  let st' := userChangeEffect (render i signedInState) signedInState in
  selectedSlug st' = Some "b-org"
  ∧ isInitialized st' = true
  ∧ localStorage st' = Some {[ STORAGE_KEY := "b-org" ]}.
Proof.
  exact (userChangeEffect_clears_only_on_logout
           (render {| user := Some (mkAuthUser "uid-2" None);
                      defaultEntitySlug := None; hasOnEntityChange := false;
                      entitiesData := Some [aPersonal; bOrg];
                      isEntitiesLoading := false |} signedInState)
           signedInState
           ltac:(intros [Hcur _]; discriminate Hcur)).
Defined.

(** X22: for a null user the provider exposes nothing of the query
    result: no current entity, slug or id, an empty entity list and no
    loading flag, even while the cache still holds the list of the user
    who was signed in before. *)
Theorem signed_out_context_is_empty i st :
  user i = None →
  contextValue i st
  = {| ctx_currentEntity := None; ctx_currentEntitySlug := None;
       ctx_currentEntityId := None; ctx_entities := [];
       ctx_isLoading := false; ctx_isInitialized := isInitialized st |}.
Proof.
  intros Huser. unfold contextValue. cbn [render snap_currentEntity].
  by rewrite (isAuthenticated_no_user i Huser).
Qed.

Lemma signed_out_context_is_empty_witness :
  contextValue signedOutInput signedInState
  = {| ctx_currentEntity := None; ctx_currentEntitySlug := None;
       ctx_currentEntityId := None; ctx_entities := [];
       ctx_isLoading := false; ctx_isInitialized := true |}.
Proof.
  exact (signed_out_context_is_empty signedOutInput signedInState eq_refl).
Defined.

Lemma currentEntity_nonempty entities selected :
  entities ≠ [] → is_Some (currentEntity true entities selected).
Proof.
  intros Hnonempty. rewrite currentEntity_unfold.
  destruct (if truthy _ then _ else _); [done |].
  destruct (findPersonalEntity _); [done |].
  by destruct entities.
Qed.

Lemma autoSelect_selected_at i sel cur st :
  isAuthenticated i = true →
  isEntitiesLoading i = false →
  entitiesOf i ≠ [] →
  selectedSlug st = sel →
  selectedSlug
    (autoSelectEffect
       {| snap_input := i; snap_selectedSlug := sel;
          snap_currentEntity := cur |} st)
  = entitySlug <$> currentEntity true (entitiesOf i) sel.
Proof.
  intros Hauth Hload Hnonempty Hsel. rewrite currentEntity_unfold.
  unfold autoSelectEffect. cbn [snap_input snap_selectedSlug].
  rewrite Hauth, Hload. cbn [negb orb].
  rewrite bool_decide_false by (by destruct (entitiesOf i)).
  destruct (truthy sel) eqn:Htruthy; cbn [negb orb].
  - destruct (findBySlug sel (entitiesOf i)) as [f|] eqn:Hfind.
    + rewrite bool_decide_true by eauto. cbn. rewrite Hsel.
      by apply findBySlug_Some in Hfind as [_ ->].
    + rewrite bool_decide_false by (by intros [? ?]). cbn [negb].
      destruct (findPersonalEntity (entitiesOf i)); [done |].
      by destruct (entitiesOf i).
  - destruct (findPersonalEntity (entitiesOf i)); [done |].
    by destruct (entitiesOf i).
Qed.

Lemma userChangeEffect_signed_in s st u :
  user (snap_input s) = Some u →
  uid u ≠ "" →
  userChangeEffect s st
  = setPreviousUserUid (Some (uid u))
      (if bool_decide (Some (uid u) ≠ previousUserUid st)
       then refetch st else st).
Proof.
  intros Huser Hne. unfold userChangeEffect. rewrite Huser. cbn [fmap option_fmap option_map truthy].
  rewrite bool_decide_true by done. cbn [negb andb]. done.
Qed.

(** X23: a full commit for a signed-in user whose list is loaded and
    non-empty, with a window: afterwards the selected slug and the
    persisted slug are both the slug of the entity that render resolved
    as current, which is an entity of the list; the provider is marked
    initialised and the user's uid is recorded. *)
Theorem signed_in_commit_settles i st u items :
  user i = Some u →
  uid u ≠ "" →
  isEntitiesLoading i = false →
  entitiesOf i ≠ [] →
  localStorage st = Some items →
  let st' := runEffects allEffects (render i st) st in
  ∃ e, snap_currentEntity (render i st) = Some e
       ∧ e ∈ entitiesOf i
       ∧ selectedSlug st' = Some (entitySlug e)
       ∧ persistedSlug st' = Some (entitySlug e)
       ∧ isInitialized st' = true
       ∧ previousUserUid st' = Some (uid u).
Proof.
  intros Huser Hne Hload Hnonempty Hstore st'.
  assert (Hauth : isAuthenticated i = true).
  { unfold isAuthenticated. rewrite Huser. by apply bool_decide_true. }
  destruct (currentEntity_nonempty (entitiesOf i) (selectedSlug st) Hnonempty)
    as [e Hcur].
  exists e.
  assert (Hsnap : snap_currentEntity (render i st) = Some e).
  { cbn [render snap_currentEntity]. by rewrite Hauth. }
  split; [done |].
  split; [by apply currentEntity_Some in Hcur as [_ ?] |].
  subst st'. unfold runEffects, allEffects.
  cbn [due_userChange due_persist due_autoSelect due_notify].
  rewrite (userChangeEffect_signed_in (render i st) st u Huser Hne).
  set (st1 := setPreviousUserUid _ _).
  assert (Hst1 : selectedSlug st1 = selectedSlug st
                 ∧ localStorage st1 = Some items).
  { subst st1. by case_bool_decide. }
  destruct Hst1 as [Hsel1 Hstore1].
  assert (Hprev1 : previousUserUid st1 = Some (uid u)) by done.
  clearbody st1.
  assert (Hst2 : persistEffect (render i st) st1
                 = setIsInitialized true
                     (onStorage (insert STORAGE_KEY (entitySlug e)) st1)).
  { unfold persistEffect. rewrite Hsnap. cbn [render snap_input].
    by rewrite Hauth, Hload. }
  rewrite Hst2. set (st2 := setIsInitialized _ _).
  rewrite autoSelectEffect_only_selects. unfold render at 2.
  rewrite (autoSelect_selected_at i (selectedSlug st) _ st2
             Hauth Hload Hnonempty) by done.
  rewrite Hcur. unfold notifyEffect. unfold persistedSlug. subst st2.
  destruct (hasOnEntityChange _); cbn; rewrite Hstore1, Hprev1; cbn;
    by rewrite lookup_insert_eq.
Qed.

Lemma signed_in_commit_settles_witness :
  let i := {| user := Some (mkAuthUser "uid-1" None);
              defaultEntitySlug := None; hasOnEntityChange := true;
              entitiesData := Some [bOrg; aPersonal];
              isEntitiesLoading := false |} in
  let st' := runEffects allEffects
               (render i (initialState (Some ∅) None))
               (initialState (Some ∅) None) in
  ∃ e, snap_currentEntity (render i (initialState (Some ∅) None)) = Some e
       ∧ e ∈ [bOrg; aPersonal]
       ∧ selectedSlug st' = Some (entitySlug e)
       ∧ persistedSlug st' = Some (entitySlug e)
       ∧ isInitialized st' = true
       ∧ previousUserUid st' = Some "uid-1".
Proof.
  exact (signed_in_commit_settles
           {| user := Some (mkAuthUser "uid-1" None);
              defaultEntitySlug := None; hasOnEntityChange := true;
              entitiesData := Some [bOrg; aPersonal];
              isEntitiesLoading := false |}
           (initialState (Some ∅) None) (mkAuthUser "uid-1" None) ∅
           eq_refl ltac:(discriminate) eq_refl ltac:(discriminate) eq_refl).
Defined.
